(** * Steam collectors and power-law analysis: a shallow embedding

    The repository is a set of stand-alone Python scripts.  This file
    embeds the parts of them that carry behaviour worth stating:

    - [PlayerCount]: class SteamPlayerCountCollector of
      src/steam_player_count_fast.py (sampling, the checkpointed bulk
      loop, the resume scan, the three export functions);
    - [Checkpoints]: the same bulk loop on checkpoint files as a resumed
      run finds them, whatever wrote them;
    - [Metadata]: class SteamRandomCollector of steam_api_data_fixed.py;
    - [Reviews]: class SteamDataCollector of src/steam_api_revews.py;
    - [Analysis]: calculate_power_law of src/calc_power_law_simple.py and
      the regression and Gini code of src/analyze_review_power_law.py and
      src/check_power_law.py;
    - [Concentration] and [Evaluation]: the share ratios of the two
      scripts and evaluate_power_law of src/analyze_review_power_law.py.

    Definitions come first, the facts proved about them follow. *)

From Stdlib Require Import ZArith List String Lia QArith Reals Qreals Lra Psatz Sorted.
From Stdlib Require Floats.
From stdpp Require Import base gmap strings list sorting.

Close Scope Q_scope.
Local Open Scope nat_scope.

(** ** What a Python call can end in *)

Inductive exn := ZeroDivisionError | ValueError | TypeError | KeyError.

Inductive outcome (A : Type) :=
| Returns (a : A)
| Raises (e : exn).
Arguments Returns {A} a.
Arguments Raises {A} e.

(** A file as a later [open]/[json.load] finds it: the value that was
    dumped, or text that the loader rejects (a dump cut short). *)
Inductive stored (A : Type) :=
| Readable (a : A)
| Garbled.
Arguments Readable {A} a.
Arguments Garbled {A}.

(** How one [open(..., 'w')] + [json.dump] goes.  [_save_checkpoint] and
    [_save_processed_ids] catch every exception, so each of the three is a
    normal continuation of the run. *)
Inductive write_outcome :=
| Written   (* the dump completed *)
| Torn      (* the file was opened (truncated) and the dump raised *)
| Refused.  (* open itself raised: the directory is unchanged *)

Definition write_file {K A : Type} `{Countable K}
  (o : write_outcome) (k : K) (a : A) (m : gmap K (stored A)) : gmap K (stored A) :=
  match o with
  | Written => <[k := Readable a]> m
  | Torn => <[k := Garbled]> m
  | Refused => m
  end.

(** ** src/steam_player_count_fast.py *)

Module PlayerCount.

(** The dict built by [get_player_count]. *)
Record player_record := {
  app_id : Z;
  player_count : Z;
  collected_at : string
}.

(** What [session.get] gives for GetNumberOfCurrentPlayers, as far as
    [get_player_count] looks at it: an exception (transport, timeout,
    body that is not JSON), or a status code with the two fields
    data['response']['result'] and data['response']['player_count'],
    each present or not.  The two fields, where present, are integers,
    as the service sends them; [collect_bulk] compares the count with
    0. *)
Inductive reply :=
| NoReply
| Http (status_code : Z) (result : option Z) (count : option Z).

Inductive target := CheckpointFile | ProcessedIdsFile.

(** Everything outside the process.  The loop position [i] (1-based, as
    [enumerate(app_ids, 1)] counts) serves as the time of the call: the
    loop issues at most one request, reads the clock at most once and
    writes each file at most once per position. *)
Record world := {
  remote : nat -> Z -> reply;          (* the API's answer at position i *)
  clock : nat -> string;               (* datetime.now().isoformat() *)
  io : nat -> target -> write_outcome  (* how a dump at position i goes *)
}.

(** The constructor arguments that the modelled methods read.  [delay] and
    [timeout] only shape real time.  [checkpoint_interval] is a count of
    items (500 by default and in [main]); the facts below take it
    positive, as [range] and [%] need it. *)
Record collector := {
  checkpoint_interval : nat
}.

(** self.stats, without the two timestamps. *)
Record stats := {
  total_requested : nat;
  successful : nat;
  failed : nat;
  with_players : nat
}.

(** The working directory, by the two name patterns [collect_bulk] uses:
    f'{output_prefix}_checkpoint_{i}.json' and
    f'{output_prefix}_processed_ids.json'.  The decimal [i] holds no
    underscore, so a name has one reading as (prefix, i) at most, and no
    name fits both patterns. *)
Record directory := {
  checkpoint_files : gmap (string * nat) (stored (list player_record));
  processed_ids_files : gmap string (stored (list Z))
}.

Definition empty_directory : directory :=
  {| checkpoint_files := ∅; processed_ids_files := ∅ |}.

(** The locals of [collect_bulk] together with what it mutates. *)
Record run := {
  all_data : list player_record;
  processed_ids : gset Z;
  run_stats : stats;
  dir : directory
}.

Definition get_player_count (w : world) (i : nat) (app : Z) : option player_record :=
  match remote w i app with
  | Http code (Some res) (Some c) =>
      if ((code =? 200) && (res =? 1))%Z
      then Some {| app_id := app; player_count := c; collected_at := clock w i |}
      else None
  | _ => None
  end.

Definition _save_checkpoint (w : world) (i : nat) (data : list player_record)
  (prefix : string) (d : directory) : directory :=
  {| checkpoint_files :=
       write_file (io w i CheckpointFile) (prefix, i) data (checkpoint_files d);
     processed_ids_files := processed_ids_files d |}.

Definition _save_processed_ids (w : world) (i : nat) (ids : gset Z)
  (prefix : string) (d : directory) : directory :=
  {| checkpoint_files := checkpoint_files d;
     processed_ids_files :=
       write_file (io w i ProcessedIdsFile) prefix (elements ids) (processed_ids_files d) |}.

Definition record_success (r : player_record) (s : stats) : stats :=
  {| total_requested := total_requested s;
     successful := S (successful s);
     failed := failed s;
     with_players :=
       if (0 <? player_count r)%Z then S (with_players s) else with_players s |}.

Definition record_failure (s : stats) : stats :=
  {| total_requested := total_requested s;
     successful := successful s;
     failed := S (failed s);
     with_players := with_players s |}.

(** The part of the loop body between the skip test and the checkpoint. *)
Definition fetch_one (w : world) (i : nat) (app : Z) (s : run) : run :=
  match get_player_count w i app with
  | Some r =>
      {| all_data := all_data s ++ [r];
         processed_ids := processed_ids s ∪ {[app]};
         run_stats := record_success r (run_stats s);
         dir := dir s |}
  | None =>
      {| all_data := all_data s;
         processed_ids := processed_ids s;
         run_stats := record_failure (run_stats s);
         dir := dir s |}
  end.

Definition checkpoint (self : collector) (w : world) (prefix : string)
  (i : nat) (s : run) : run :=
  if i mod checkpoint_interval self =? 0
  then {| all_data := all_data s;
          processed_ids := processed_ids s;
          run_stats := run_stats s;
          dir := _save_processed_ids w i (processed_ids s) prefix
                   (_save_checkpoint w i (all_data s) prefix (dir s)) |}
  else s.

(** One turn of [for i, app_id in enumerate(app_ids, 1)].  The [continue]
    of a skipped identifier also skips the checkpoint of that position. *)
Definition body (self : collector) (w : world) (prefix : string)
  (i : nat) (app : Z) (s : run) : run :=
  if decide (app ∈ processed_ids s) then s
  else checkpoint self w prefix i (fetch_one w i app s).

Fixpoint loop (self : collector) (w : world) (prefix : string)
  (i : nat) (app_ids : list Z) (s : run) : run :=
  match app_ids with
  | [] => s
  | app :: rest => loop self w prefix (S i) rest (body self w prefix i app s)
  end.

(** [range(n, 0, -c)] for c > 0: n, n - c, n - 2c, ... while positive.
    [fuel] bounds the number of elements; [n] is enough
    (see [range_down_spec]). *)
Fixpoint range_down_from (fuel i c : nat) : list nat :=
  match fuel with
  | 0 => []
  | S fuel' => if i =? 0 then [] else i :: range_down_from fuel' (i - c) c
  end.

Definition range_down (n c : nat) : list nat := range_down_from n n c.

(** The resume scan: the first candidate position whose file exists and
    loads.  A missing file fails [os.path.exists]; on a garbled one
    [json.load] raises before [all_data] is assigned, the warning is
    logged and the scan goes on.  A file that loads is, in this module,
    an array of records as the program dumps them, each with its
    'app_id'.  [Checkpoints] below follows the scan on arrays whose
    objects may lack the key; on the directories of this module the two
    agree ([state_after_as_found]). *)
Fixpoint first_readable (d : directory) (prefix : string) (candidates : list nat)
  : option (nat * list player_record) :=
  match candidates with
  | [] => None
  | i :: rest =>
      match checkpoint_files d !! (prefix, i) with
      | Some (Readable data) => Some (i, data)
      | _ => first_readable d prefix rest
      end
  end.

Definition find_checkpoint (self : collector) (d : directory) (prefix : string)
  (app_ids : list Z) : option (nat * list player_record) :=
  first_readable d prefix (range_down (length app_ids) (checkpoint_interval self)).

(** The state on entry to the loop: lines 185-214. *)
Definition start (self : collector) (d : directory) (prefix : string)
  (app_ids : list Z) (resume : bool) (before : stats) : run :=
  let restored :=
    match (if resume then find_checkpoint self d prefix app_ids else None) with
    | Some (_, data) => data
    | None => []
    end in
  {| all_data := restored;
     processed_ids := list_to_set (map app_id restored);
     run_stats := {| total_requested := length app_ids;
                     successful := length restored;
                     failed := failed before;
                     with_players := with_players before |};
     dir := d |}.

(** [start_index], which the code only logs. *)
Definition start_index (self : collector) (d : directory) (prefix : string)
  (app_ids : list Z) (resume : bool) : nat :=
  match (if resume then find_checkpoint self d prefix app_ids else None) with
  | Some (i, _) => i
  | None => 0
  end.

(** The state after the first [k] turns of the loop, and at its end. *)
Definition state_after (self : collector) (w : world) (d : directory) (prefix : string)
  (app_ids : list Z) (resume : bool) (before : stats) (k : nat) : run :=
  loop self w prefix 1 (firstn k app_ids) (start self d prefix app_ids resume before).

Definition final_state (self : collector) (w : world) (d : directory) (prefix : string)
  (app_ids : list Z) (resume : bool) (before : stats) : run :=
  loop self w prefix 1 app_ids (start self d prefix app_ids resume before).

(** [_print_final_stats] divides by stats['total_requested'] inside an
    f-string: for an empty [app_ids] the call ends there and [all_data]
    is never returned.  (Its last line divides by the duration of the
    run, which is taken to be positive: real time is not modelled.) *)
Definition collect_bulk (self : collector) (w : world) (d : directory) (prefix : string)
  (app_ids : list Z) (resume : bool) (before : stats) : outcome (list player_record) :=
  let s := final_state self w d prefix app_ids resume before in
  if total_requested (run_stats s) =? 0 then Raises ZeroDivisionError
  else Returns (all_data s).

(** *** Sampling *)

(** Python's module [random], whose generator is one hidden global state
    of some type [G].  [random.seed(s)] replaces that state by one that
    depends on [s] alone; [random.sample(population, k)], for
    0 <= k <= len(population), reads the state, returns a list and leaves
    the advanced state behind. *)
Record random_module (G : Type) := {
  seed : Z -> G;
  sample : G -> list Z -> nat -> list Z * G
}.
Arguments seed {G} _ _.
Arguments sample {G} _ _ _ _.

(** [random_sample_app_ids(all_app_ids, sample_size, seed)], from the
    generator state [g]; the same text is a method of SteamRandomCollector
    in steam_api_data_fixed.py.  [random.sample] raises ValueError on a
    negative size, and [min(sampled_ids)] in the second log line raises
    ValueError on an empty sample. *)
Definition random_sample_app_ids {G : Type} (random : random_module G) (g : G)
  (all_app_ids : list Z) (sample_size : Z) (seed_arg : option Z)
  : outcome (list Z) * G :=
  let g1 := match seed_arg with Some s => seed random s | None => g end in
  let actual_sample_size := Z.min sample_size (Z.of_nat (length all_app_ids)) in
  if (actual_sample_size <? 0)%Z then (Raises ValueError, g1)
  else
    let (sampled_ids, g2) := sample random g1 all_app_ids (Z.to_nat actual_sample_size) in
    match sampled_ids with
    | [] => (Raises ValueError, g2)
    | _ :: _ => (Returns sampled_ids, g2)
    end.

(** A small generator to run the sampler on: the state is a counter,
    a draw takes the first [k] items of the population rotated by it. *)
Definition toy_random : random_module nat :=
  {| seed := fun s => Z.to_nat (Z.abs s);
     sample := fun g population k => (firstn k (rotate g population), S g) |}.

(** *** Export *)

(** What a written output file holds. *)
Inductive document :=
| JsonArray (data : list player_record)
| CsvTable (columns : list string) (rows : list player_record)
| ExcelSheet (columns : list string) (rows : list player_record).

Definition column_order : list string := ["app_id"; "player_count"; "collected_at"].

(** df.sort_values('player_count', ascending=False): descending counts,
    rows of equal count in their input order.  (pandas reverses the
    column, sorts it ascending and reverses the result; its default sort
    keeps equal keys in place on short tables and promises no order
    among them on long ones.)  [foldr] inserts the later rows first, and
    a row goes in front of the rows whose count is not larger. *)
Fixpoint insert_by_count (r : player_record) (rows : list player_record)
  : list player_record :=
  match rows with
  | [] => [r]
  | x :: rest =>
      if (player_count x <=? player_count r)%Z then r :: rows
      else x :: insert_by_count r rest
  end.

Definition sort_values (rows : list player_record) : list player_record :=
  foldr insert_by_count [] rows.

(** Every record of this collector carries the three keys, so
    [existing_columns] is [column_order] whenever [data] is not empty. *)
Definition save_to_json (data : list player_record) (filename : string)
  (files : gmap string document) : gmap string document :=
  <[filename := JsonArray data]> files.

Definition save_to_csv (data : list player_record) (filename : string)
  (files : gmap string document) : gmap string document :=
  match data with
  | [] => files
  | _ :: _ => <[filename := CsvTable column_order (sort_values data)]> files
  end.

Definition save_to_excel (data : list player_record) (filename : string)
  (files : gmap string document) : gmap string document :=
  match data with
  | [] => files
  | _ :: _ => <[filename := ExcelSheet column_order (sort_values data)]> files
  end.

(** *** Notions used in the statements *)

(** The two invariants of the accumulation. *)
Definition consistent (s : run) : Prop :=
  processed_ids s = list_to_set (map app_id (all_data s))
  /\ NoDup (map app_id (all_data s)).

(** Every checkpoint file that can be read holds at most one record per
    identifier: true of a directory without checkpoints, and kept by
    every write of the loop. *)
Definition distinct_snapshots (d : directory) : Prop :=
  forall prefix i data,
    checkpoint_files d !! (prefix, i) = Some (Readable data) ->
    NoDup (map app_id data).

(** The fetch is idempotent: what [get_player_count] gives for an
    identifier does not depend on when, or in which run, it is asked. *)
Definition same_fetch (w w0 : world) : Prop :=
  forall i j app, get_player_count w i app = get_player_count w0 j app.

(** *** The turns of the loop *)

(** [enumerate(l, start)]. *)
Definition enumerate {A : Type} (l : list A) (start : nat) : list (nat * A) :=
  zip (seq start (length l)) l.

(** The turns of the loop that get past the skip test, for a list
    without repetitions: those whose identifier is not among the ones
    known on entry (an identifier added on the way does not come again). *)
Definition attempts (known : gset Z) (app_ids : list Z) : list (nat * Z) :=
  filter (fun turn => turn.2 ∉ known) (enumerate app_ids 1).

(** The records those turns append. *)
Definition fetched (w : world) (turns : list (nat * Z)) : list player_record :=
  omap (fun turn => get_player_count w turn.1 turn.2) turns.


(** *** A small run

    Three identifiers, every request answered, every dump completed. *)
Definition demo_self : collector := {| checkpoint_interval := 2 |}.

Definition demo_self1 : collector := {| checkpoint_interval := 1 |}.

Definition demo_world : world :=
  {| remote := fun _ app => Http 200 (Some 1%Z) (Some (app * 10)%Z);
     clock := fun _ => "2026-01-15T15:00:16"%string;
     io := fun _ _ => Written |}.

Definition demo_ids : list Z := [10; 20; 30]%Z.

Definition demo_prefix : string := "steam_players_3_20260115_150016".

Definition demo_before : stats :=
  {| total_requested := 0; successful := 0; failed := 0; with_players := 0 |}.

Definition demo_record (app : Z) : player_record :=
  {| app_id := app; player_count := (app * 10)%Z; collected_at := "2026-01-15T15:00:16" |}.

(** The directory left by a first run over [demo_ids] that is killed
    after its second item. *)
Definition demo_interrupted : directory :=
  dir (state_after demo_self demo_world empty_directory demo_prefix demo_ids false demo_before 2).

Definition demo_interrupted1 : directory :=
  dir (state_after demo_self1 demo_world empty_directory demo_prefix demo_ids false demo_before 2).

(** A second sample, drawn for the resumed run as [main] does: it shares
    the identifier 30 with [demo_ids] only. *)
Definition demo_resampled : list Z := [30; 40]%Z.

End PlayerCount.

(** ** src/steam_player_count_fast.py: collect_bulk and the files it finds

    [PlayerCount] types a checkpoint file by what the program dumps into
    it: an array of records.  A file that a resumed run finds need not
    be one.  This module follows [collect_bulk] on checkpoint files as
    they are: the resume scan assigns all_data as soon as json.load
    accepts the text, and only then reads the 'app_id' of every object;
    when that raises, the handler logs a warning and the scan goes on
    with all_data still holding the loaded array. *)

Module Checkpoints.
Import PlayerCount.

(** An item of a loaded array: a record with the keys the program
    writes, or an item on which game['app_id'] raises (KeyError on an
    object without the key, TypeError on an item that is not an object).
    [collect_bulk] reads nothing else of a restored item. *)
Inductive item :=
| Keyed (r : player_record)
| Keyless.

(** A checkpoint file as [open] and [json.load] find it: text that the
    loader rejects (a dump cut short), or an array.  A file whose text
    is JSON for something else than an array, or gives an 'app_id' that
    is not an integer, is outside this model. *)
Inductive content :=
| Unparsable
| Parsed (items : list item).

Record directory := {
  checkpoint_files : gmap (string * nat) content;
  processed_ids_files : gmap string (stored (list Z))
}.

Definition empty_directory : directory :=
  {| checkpoint_files := ∅; processed_ids_files := ∅ |}.

Record run := {
  all_data : list item;
  processed_ids : gset Z;
  run_stats : stats;
  dir : directory
}.

(** game['app_id'] for game in all_data: None when an object lacks the
    key. *)
Fixpoint app_ids_of (items : list item) : option (list Z) :=
  match items with
  | [] => Some []
  | Keyless :: _ => None
  | Keyed r :: rest =>
      match app_ids_of rest with
      | Some ids => Some (app_id r :: ids)
      | None => None
      end
  end.

(** The 'app_id' values that are there. *)
Fixpoint keys (items : list item) : list Z :=
  match items with
  | [] => []
  | Keyed r :: rest => app_id r :: keys rest
  | Keyless :: rest => keys rest
  end.

(** What the scan leaves in its three variables. *)
Record restored := {
  restored_data : list item;       (* all_data *)
  restored_ids : gset Z;           (* processed_ids *)
  start_index : nat
}.

(** The resume scan over the candidate positions, [all_data] being what
    the scan has assigned so far.  A file that is missing or that
    json.load rejects changes nothing.  A file that loads is assigned to
    all_data; if every object has its 'app_id' the scan ends there, with
    the set of those values and the position; if not, the scan goes on
    and all_data keeps the array, processed_ids and start_index their
    initial values. *)
Fixpoint scan (d : directory) (prefix : string) (candidates : list nat)
  (all_data : list item) : restored :=
  match candidates with
  | [] => {| restored_data := all_data; restored_ids := ∅; start_index := 0 |}
  | i :: rest =>
      match checkpoint_files d !! (prefix, i) with
      | Some (Parsed items) =>
          match app_ids_of items with
          | Some ids =>
              {| restored_data := items; restored_ids := list_to_set ids; start_index := i |}
          | None => scan d prefix rest items
          end
      | _ => scan d prefix rest all_data
      end
  end.

Definition restore (self : collector) (d : directory) (prefix : string)
  (app_ids : list Z) (resume : bool) : restored :=
  if resume
  then scan d prefix (range_down (length app_ids) (checkpoint_interval self)) []
  else {| restored_data := []; restored_ids := ∅; start_index := 0 |}.

(** The state on entry to the loop: lines 185-214. *)
Definition start (self : collector) (d : directory) (prefix : string)
  (app_ids : list Z) (resume : bool) (before : stats) : run :=
  let found := restore self d prefix app_ids resume in
  {| all_data := restored_data found;
     processed_ids := restored_ids found;
     run_stats := {| total_requested := length app_ids;
                     successful := length (restored_data found);
                     failed := failed before;
                     with_players := with_players before |};
     dir := d |}.

Definition dump (o : write_outcome) (k : string * nat) (items : list item)
  (m : gmap (string * nat) content) : gmap (string * nat) content :=
  match o with
  | Written => <[k := Parsed items]> m
  | Torn => <[k := Unparsable]> m
  | Refused => m
  end.

Definition _save_checkpoint (w : world) (i : nat) (data : list item)
  (prefix : string) (d : directory) : directory :=
  {| checkpoint_files := dump (io w i CheckpointFile) (prefix, i) data (checkpoint_files d);
     processed_ids_files := processed_ids_files d |}.

Definition _save_processed_ids (w : world) (i : nat) (ids : gset Z)
  (prefix : string) (d : directory) : directory :=
  {| checkpoint_files := checkpoint_files d;
     processed_ids_files :=
       write_file (io w i ProcessedIdsFile) prefix (elements ids) (processed_ids_files d) |}.

Definition fetch_one (w : world) (i : nat) (app : Z) (s : run) : run :=
  match get_player_count w i app with
  | Some r =>
      {| all_data := all_data s ++ [Keyed r];
         processed_ids := processed_ids s ∪ {[app]};
         run_stats := record_success r (run_stats s);
         dir := dir s |}
  | None =>
      {| all_data := all_data s;
         processed_ids := processed_ids s;
         run_stats := record_failure (run_stats s);
         dir := dir s |}
  end.

Definition checkpoint (self : collector) (w : world) (prefix : string)
  (i : nat) (s : run) : run :=
  if i mod checkpoint_interval self =? 0
  then {| all_data := all_data s;
          processed_ids := processed_ids s;
          run_stats := run_stats s;
          dir := _save_processed_ids w i (processed_ids s) prefix
                   (_save_checkpoint w i (all_data s) prefix (dir s)) |}
  else s.

Definition body (self : collector) (w : world) (prefix : string)
  (i : nat) (app : Z) (s : run) : run :=
  if decide (app ∈ processed_ids s) then s
  else checkpoint self w prefix i (fetch_one w i app s).

Fixpoint loop (self : collector) (w : world) (prefix : string)
  (i : nat) (app_ids : list Z) (s : run) : run :=
  match app_ids with
  | [] => s
  | app :: rest => loop self w prefix (S i) rest (body self w prefix i app s)
  end.

(** The state after the first [k] turns of the loop, and at its end. *)
Definition state_after (self : collector) (w : world) (d : directory) (prefix : string)
  (app_ids : list Z) (resume : bool) (before : stats) (k : nat) : run :=
  loop self w prefix 1 (firstn k app_ids) (start self d prefix app_ids resume before).

Definition final_state (self : collector) (w : world) (d : directory) (prefix : string)
  (app_ids : list Z) (resume : bool) (before : stats) : run :=
  loop self w prefix 1 app_ids (start self d prefix app_ids resume before).

(** *** Notions used in the statements *)




(** A directory and a state of [PlayerCount], where every file that
    loads is an array of records, as this module sees them. *)
Definition found (file : stored (list player_record)) : content :=
  match file with
  | Readable data => Parsed (map Keyed data)
  | Garbled => Unparsable
  end.

Definition as_found (d : PlayerCount.directory) : directory :=
  {| checkpoint_files := found <$> PlayerCount.checkpoint_files d;
     processed_ids_files := PlayerCount.processed_ids_files d |}.

Definition as_run (s : PlayerCount.run) : run :=
  {| all_data := map Keyed (PlayerCount.all_data s);
     processed_ids := PlayerCount.processed_ids s;
     run_stats := PlayerCount.run_stats s;
     dir := as_found (PlayerCount.dir s) |}.

(** *** Three directories

    The one left by the run of [demo_ids] with interval 1 that is killed
    after its second item; one whose checkpoint of position 3 holds the
    record of 10 twice; and one whose checkpoint of position 3 holds an
    object without 'app_id'. *)
Definition killed_directory : directory :=
  dir (state_after demo_self1 demo_world empty_directory demo_prefix demo_ids false demo_before 2).


Definition keyless_directory : directory :=
  {| checkpoint_files := {[ (demo_prefix, 3) := Parsed [Keyed (demo_record 10); Keyless] ]};
     processed_ids_files := ∅ |}.

End Checkpoints.

(** ** Sequential effects of the metadata collectors

    The two collectors below issue several requests per item and update
    counters on the way; their methods are written in a state monad over
    whatever the collector and the network have seen so far. *)

Definition State (S A : Type) : Type := S -> A * S.

Definition ret {S A : Type} (a : A) : State S A := fun s => (a, s).

Definition bind {S A B : Type} (c : State S A) (k : A -> State S B) : State S B :=
  fun s => let (a, s') := c s in k a s'.

Definition modify {S : Type} (f : S -> S) : State S unit := fun s => (tt, f s).

Definition gets {S A : Type} (f : S -> A) : State S A := fun s => (f s, s).

Notation "x <- c ;; k" := (bind c (fun x => k))
  (at level 100, c at next level, right associativity).
Notation "c ;; k" := (bind c (fun _ => k))
  (at level 100, right associativity).

(** The three endpoints the collectors call. *)
Inductive request :=
| AppDetails (app : Z)              (* store.steampowered.com/api/appdetails *)
| CurrentPlayers (app : Z)          (* GetNumberOfCurrentPlayers *)
| AchievementPercentages (app : Z)  (* GetGlobalAchievementPercentagesForApp *)
| AppReviews (app : Z).             (* store.steampowered.com/appreviews *)

(** ** steam_api_data_fixed.py *)

Module Metadata.

(** data[str(app_id)]['data'], as far as [get_game_details] reads it. *)
Record store_data := {
  sd_type : option string;              (* details.get('type') *)
  sd_is_free : bool;                    (* details.get('is_free', False) *)
  sd_categories : list (option string); (* cat.get('description'), per category *)
  sd_genres : list (option string);     (* genre.get('description'), per genre *)
  sd_price_final : option Z;            (* price_overview.get('final', 0), when
                                           price_overview is there *)
  sd_metacritic_score : option Z        (* metacritic.get('score'), when
                                           metacritic is there *)
}.

(** The answer to an appdetails request: an exception, or a status code,
    the truth of data[str(app_id)]['success'] and the ['data'] entry if
    there is one. *)
Inductive details_reply :=
| DetailsNoReply
| DetailsHttp (status_code : Z) (success : bool) (data : option store_data).

(** Whether an appdetails answer says "this is a game": the request
    went through with status 200, success is true, there is a data entry
    and its type is 'game'. *)
Definition reports_game (r : details_reply) : bool :=
  match r with
  | DetailsHttp code true (Some d) =>
      (code =? 200)%Z && bool_decide (sd_type d = Some "game"%string)
  | _ => false
  end.

Inductive achievements_reply :=
| AchievementsNoReply
| AchievementsHttp (status_code : Z) (achievements : nat).

(** The dict [get_game_details] returns ... *)
Record details := {
  app_id : Z;
  type : option string;
  is_free : bool;
  categories : list (option string);
  genres : list (option string);
  price_jpy : option Q;
  metacritic_score : option Z
}.

(** ... and the same dict once [collect_single_game] has added its three
    keys. *)
Record game_record := {
  info : details;
  player_count : option Z;
  total_achievements : option nat;
  collected_at : string
}.

Record stats := {
  total_requested : nat;
  successful : nat;
  failed : nat;
  with_players : nat;
  with_metacritic : nat
}.

(** The outside, by the time of the call: [tick] counts the requests sent
    so far. *)
Record world := {
  store : nat -> Z -> details_reply;
  players : nat -> Z -> PlayerCount.reply;
  achievements : nat -> Z -> achievements_reply;
  clock : nat -> string;
  io : nat -> write_outcome
}.

Record collector := {
  checkpoint_interval : nat
}.

(** self.stats, the requests that went out, and the checkpoint files
    f'{output_prefix}_checkpoint_{i}. json'. *)
Record session := {
  tick : nat;
  sent : list request;
  counters : stats;
  checkpoint_files : gmap (string * nat) (stored (list game_record))
}.

Definition send (r : request) : State session nat :=
  fun s => (tick s,
            {| tick := S (tick s); sent := sent s ++ [r];
               counters := counters s; checkpoint_files := checkpoint_files s |}).

Definition update_stats (f : stats -> stats) : State session unit :=
  modify (fun s => {| tick := tick s; sent := sent s;
                      counters := f (counters s);
                      checkpoint_files := checkpoint_files s |}).

Definition get_game_details (w : world) (app : Z) : State session (option details) :=
  t <- send (AppDetails app) ;;
  ret match store w t app with
      | DetailsHttp code true (Some d) =>
          if (code =? 200)%Z then
            Some {| app_id := app;
                    type := sd_type d;
                    is_free := sd_is_free d;
                    categories := sd_categories d;
                    genres := sd_genres d;
                    price_jpy :=
                      match sd_price_final d with
                      | Some final => Some (Qmake final 100)
                      | None => if sd_is_free d then Some (Qmake 0 1) else None
                      end;
                    metacritic_score := sd_metacritic_score d |}
          else None
      | _ => None
      end.

Definition get_player_count (w : world) (app : Z) : State session (option Z) :=
  t <- send (CurrentPlayers app) ;;
  ret match players w t app with
      | PlayerCount.Http code (Some res) (Some c) =>
          if ((code =? 200) && (res =? 1))%Z then Some c else None
      | _ => None
      end.

Definition get_achievement_count (w : world) (app : Z) : State session (option nat) :=
  t <- send (AchievementPercentages app) ;;
  ret match achievements w t app with
      | AchievementsHttp code n => if (code =? 200)%Z then Some n else None
      | AchievementsNoReply => None
      end.

Definition count_with_players (s : stats) : stats :=
  {| total_requested := total_requested s; successful := successful s;
     failed := failed s; with_players := S (with_players s);
     with_metacritic := with_metacritic s |}.

Definition count_with_metacritic (s : stats) : stats :=
  {| total_requested := total_requested s; successful := successful s;
     failed := failed s; with_players := with_players s;
     with_metacritic := S (with_metacritic s) |}.

Definition count_successful (s : stats) : stats :=
  {| total_requested := total_requested s; successful := S (successful s);
     failed := failed s; with_players := with_players s;
     with_metacritic := with_metacritic s |}.

Definition count_failed (s : stats) : stats :=
  {| total_requested := total_requested s; successful := successful s;
     failed := S (failed s); with_players := with_players s;
     with_metacritic := with_metacritic s |}.

Definition set_total_requested (n : nat) (s : stats) : stats :=
  {| total_requested := n; successful := successful s;
     failed := failed s; with_players := with_players s;
     with_metacritic := with_metacritic s |}.

(** Python truth of an optional number: there, and not zero. *)
Definition truthy (x : option Z) : bool :=
  match x with Some v => negb (v =? 0)%Z | None => false end.

Definition positive (x : option Z) : bool :=
  match x with Some v => (0 <? v)%Z | None => false end.

Definition when {S : Type} (b : bool) (c : State S unit) : State S unit :=
  if b then c else ret tt.

Definition collect_single_game (w : world) (app : Z) : State session (option game_record) :=
  game_data <- get_game_details w app ;;
  match game_data with
  | None => ret None
  | Some g =>
      if decide (type g = Some "game"%string) then
        count <- get_player_count w app ;;
        when (positive count) (update_stats count_with_players) ;;
        achievement_count <- get_achievement_count w app ;;
        when (truthy (metacritic_score g)) (update_stats count_with_metacritic) ;;
        now <- gets (fun s => clock w (tick s)) ;;
        ret (Some {| info := g; player_count := count;
                     total_achievements := achievement_count;
                     collected_at := now |})
      else ret None
  end.

Definition _save_checkpoint (w : world) (i : nat) (data : list game_record)
  (prefix : string) : State session unit :=
  modify (fun s => {| tick := tick s; sent := sent s; counters := counters s;
                      checkpoint_files :=
                        write_file (io w i) (prefix, i) data (checkpoint_files s) |}).

(** One turn of the loop of [collect_bulk], on the list gathered so far. *)
Definition body (self : collector) (w : world) (prefix : string)
  (i : nat) (app : Z) (all_data : list game_record) : State session (list game_record) :=
  game_data <- collect_single_game w app ;;
  all_data' <- match game_data with
               | Some g => update_stats count_successful ;; ret (all_data ++ [g])
               | None => update_stats count_failed ;; ret all_data
               end ;;
  when (i mod checkpoint_interval self =? 0) (_save_checkpoint w i all_data' prefix) ;;
  ret all_data'.

Fixpoint loop (self : collector) (w : world) (prefix : string)
  (i : nat) (app_ids : list Z) (all_data : list game_record)
  : State session (list game_record) :=
  match app_ids with
  | [] => ret all_data
  | app :: rest =>
      all_data' <- body self w prefix i app all_data ;;
      loop self w prefix (S i) rest all_data'
  end.

(** [collect_bulk]: as in the other collector, [_print_final_stats]
    divides by stats['total_requested']. *)
Definition collect_bulk (self : collector) (w : world) (prefix : string)
  (app_ids : list Z) : State session (outcome (list game_record)) :=
  update_stats (set_total_requested (length app_ids)) ;;
  all_data <- loop self w prefix 1 app_ids [] ;;
  ret (if length app_ids =? 0 then Raises ZeroDivisionError else Returns all_data).

(** *** Export *)

(** '|'.join(descriptions): TypeError as soon as an item is None. *)
Fixpoint join (descriptions : list (option string)) : outcome string :=
  match descriptions with
  | [] => Returns ""%string
  | None :: _ => Raises TypeError
  | Some d :: rest =>
      match join rest with
      | Raises e => Raises e
      | Returns tail =>
          Returns match rest with
                  | [] => d
                  | _ :: _ => (d ++ "|" ++ tail)%string
                  end
      end
  end.

(** A row of the frame: the record with its two lists joined. *)
Record row := {
  source : game_record;
  categories_text : string;
  genres_text : string
}.

Definition flatten (g : game_record) : outcome row :=
  match join (categories (info g)) with
  | Raises e => Raises e
  | Returns c =>
      match join (genres (info g)) with
      | Raises e => Raises e
      | Returns ge => Returns {| source := g; categories_text := c; genres_text := ge |}
      end
  end.

Fixpoint flatten_all (data : list game_record) : outcome (list row) :=
  match data with
  | [] => Returns []
  | g :: rest =>
      match flatten g with
      | Raises e => Raises e
      | Returns r =>
          match flatten_all rest with
          | Raises e => Raises e
          | Returns rs => Returns (r :: rs)
          end
      end
  end.

Inductive document :=
| JsonArray (data : list game_record)
| CsvTable (columns : list string) (rows : list row)
| ExcelSheet (columns : list string) (rows : list row).

Definition column_order : list string :=
  ["app_id"; "player_count"; "type"; "is_free"; "categories"; "genres";
   "price_jpy"; "metacritic_score"; "total_achievements"; "collected_at"].

Definition save_to_json (data : list game_record) (filename : string)
  (files : gmap string document) : outcome (gmap string document) :=
  Returns (<[filename := JsonArray data]> files).

(** The rows are built before the file is opened: when a join raises,
    nothing has been written. *)
Definition save_to_csv (data : list game_record) (filename : string)
  (files : gmap string document) : outcome (gmap string document) :=
  match data with
  | [] => Returns files
  | _ :: _ =>
      match flatten_all data with
      | Raises e => Raises e
      | Returns rows => Returns (<[filename := CsvTable column_order rows]> files)
      end
  end.

Definition save_to_excel (data : list game_record) (filename : string)
  (files : gmap string document) : outcome (gmap string document) :=
  match data with
  | [] => Returns files
  | _ :: _ =>
      match flatten_all data with
      | Raises e => Raises e
      | Returns rows => Returns (<[filename := ExcelSheet column_order rows]> files)
      end
  end.

(** *** Notions used in the statements *)

Definition is_game_record (g : game_record) : Prop := type (info g) = Some "game"%string.

(** The session after one request and nothing else. *)
Definition after_request (r : request) (s : session) : session :=
  {| tick := S (tick s); sent := sent s ++ [r];
     counters := counters s; checkpoint_files := checkpoint_files s |}.

(** No category and no genre of the record lacks its description. *)
Definition described (g : game_record) : Prop :=
  Forall is_Some (categories (info g))
  /\ Forall is_Some (genres (info g)).

(** *** A store answer with a category that has no description *)

Definition odd_store_data : store_data :=
  {| sd_type := Some "game"%string;
     sd_is_free := true;
     sd_categories := [Some "Single-player"%string; None];
     sd_genres := [Some "Indie"%string];
     sd_price_final := None;
     sd_metacritic_score := None |}.

Definition odd_world : world :=
  {| store := fun _ _ => DetailsHttp 200 true (Some odd_store_data);
     players := fun _ _ => PlayerCount.Http 200 (Some 1%Z) (Some 12%Z);
     achievements := fun _ _ => AchievementsHttp 200 5;
     clock := fun _ => "2026-01-15T15:00:16"%string;
     io := fun _ => Written |}.

Definition fresh_session : session :=
  {| tick := 0; sent := [];
     counters :=
       {| total_requested := 0; successful := 0; failed := 0;
          with_players := 0; with_metacritic := 0 |};
     checkpoint_files := ∅ |}.

Definition odd_data : list game_record :=
  match fst (collect_bulk {| checkpoint_interval := 100 |}
               odd_world "steam_random" [570%Z] fresh_session) with
  | Returns data => data
  | Raises _ => []
  end.

End Metadata.

(** ** src/steam_api_revews.py *)

Module Reviews.

(** The answer to an appreviews request: an exception, or a status code
    with the three counts of data['query_summary'], each 0 when absent. *)
Inductive reviews_reply :=
| ReviewsNoReply
| ReviewsHttp (status_code : Z) (total_reviews total_positive total_negative : Z).

Record review_counts := {
  rc_total_reviews : Z;
  rc_positive_reviews : Z;
  rc_negative_reviews : Z
}.

(** The dict [collect_single_game] returns. *)
Record review_record := {
  app_id : Z;
  player_count : option Z;
  total_reviews : option Z;
  positive_reviews : option Z;
  negative_reviews : option Z;
  collected_at : string
}.

Record world := {
  store : nat -> Z -> Metadata.details_reply;
  players : nat -> Z -> PlayerCount.reply;
  reviews : nat -> Z -> reviews_reply;
  clock : nat -> string
}.

(** This collector keeps no state of its own; what changes is the
    network's view: the requests sent so far. *)
Record session := {
  tick : nat;
  sent : list request
}.

Definition send (r : request) : State session nat :=
  fun s => (tick s, {| tick := S (tick s); sent := sent s ++ [r] |}).

Definition get_player_count (w : world) (app : Z) : State session (option Z) :=
  t <- send (CurrentPlayers app) ;;
  ret match players w t app with
      | PlayerCount.Http code (Some res) (Some c) =>
          if ((code =? 200) && (res =? 1))%Z then Some c else None
      | _ => None
      end.

Definition get_review_count (w : world) (app : Z) : State session (option review_counts) :=
  t <- send (AppReviews app) ;;
  ret match reviews w t app with
      | ReviewsHttp code total pos neg =>
          if (code =? 200)%Z
          then Some {| rc_total_reviews := total; rc_positive_reviews := pos;
                       rc_negative_reviews := neg |}
          else None
      | ReviewsNoReply => None
      end.

(** [is_game]: status 200, success, a data entry, and type 'game'; False
    on anything else, exceptions included. *)
Definition is_game (w : world) (app : Z) : State session bool :=
  t <- send (AppDetails app) ;;
  ret match store w t app with
      | Metadata.DetailsHttp code true (Some d) =>
          (code =? 200)%Z && bool_decide (Metadata.sd_type d = Some "game"%string)
      | _ => false
      end.

Definition collect_single_game (w : world) (app : Z) : State session (option review_record) :=
  game <- is_game w app ;;
  if game then
    count <- get_player_count w app ;;
    review_data <- get_review_count w app ;;
    now <- gets (fun s => clock w (tick s)) ;;
    ret (Some {| app_id := app;
                 player_count := count;
                 total_reviews := rc_total_reviews <$> review_data;
                 positive_reviews := rc_positive_reviews <$> review_data;
                 negative_reviews := rc_negative_reviews <$> review_data;
                 collected_at := now |})
  else ret None.

(** The three locals of [collect_bulk]; the function returns the first. *)
Record tally := {
  all_data : list review_record;
  successful : nat;
  failed : nat
}.

Definition body (w : world) (app : Z) (acc : tally) : State session tally :=
  game_data <- collect_single_game w app ;;
  ret match game_data with
      | Some g => {| all_data := all_data acc ++ [g];
                     successful := S (successful acc);
                     failed := failed acc |}
      | None => {| all_data := all_data acc;
                   successful := successful acc;
                   failed := S (failed acc) |}
      end.

Fixpoint loop (w : world) (app_ids : list Z) (acc : tally) : State session tally :=
  match app_ids with
  | [] => ret acc
  | app :: rest => acc' <- body w app acc ;; loop w rest acc'
  end.

Definition collect_bulk_tally (w : world) (app_ids : list Z) : State session tally :=
  loop w app_ids {| all_data := []; successful := 0; failed := 0 |}.

Definition collect_bulk (w : world) (app_ids : list Z) : State session (list review_record) :=
  acc <- collect_bulk_tally w app_ids ;;
  ret (all_data acc).

(** *** Notions used in the statements *)

(** The session after one request and nothing else. *)
Definition after_request (r : request) (s : session) : session :=
  {| tick := S (tick s); sent := sent s ++ [r] |}.

(** The identifiers of the records are identifiers that some appdetails
    answer reported as a game. *)
Definition reported_game (w : world) (g : review_record) : Prop :=
  exists t, Metadata.reports_game (store w t (app_id g)) = true.

End Reviews.

(** ** src/calc_power_law_simple.py, src/analyze_review_power_law.py,
       src/check_power_law.py *)

Module Analysis.

(** [np.sort]: ascending, by insertion. *)
Fixpoint insert_sorted {A : Type} (leb : A -> A -> bool) (x : A) (l : list A) : list A :=
  match l with
  | [] => [x]
  | y :: rest => if leb x y then x :: l else y :: insert_sorted leb x rest
  end.

Definition np_sort {A : Type} (leb : A -> A -> bool) (l : list A) : list A :=
  fold_right (insert_sorted leb) [] l.

(** [np.arange(1, n + 1)]. *)
Definition arange1 (n : nat) : list nat := seq 1 n.

(** *** The Gini coefficient

    The two scripts compute it on an integer array: the products and the
    sums are int64 operations, the two quotients and the difference are
    float64 operations. *)

Definition int64 (z : Z) : Z := ((z + 2 ^ 63) mod 2 ^ 64 - 2 ^ 63)%Z.

(** The float64 nearest to an integer. *)
Definition float64 (z : Z) : PrimFloat.float :=
  FloatOps.SF2Prim (SpecFloat.binary_normalize FloatOps.prec FloatOps.emax z 0 false).

Definition np_sum (l : list Z) : Z := fold_left (fun acc x => int64 (acc + x)) l 0%Z.

Definition np_multiply (a b : list Z) : list Z :=
  map (fun p => int64 (fst p * snd p)) (combine a b).

(** gini = (2 * np.sum(index * sorted_asc)) / (n * np.sum(sorted_asc)) - (n + 1) / n.
    The first quotient divides numpy scalars (a zero divisor gives nan or
    an infinity); the second divides Python ints and raises on n = 0. *)
Definition gini (data : list Z) : outcome PrimFloat.float :=
  let sorted_asc := np_sort Z.leb data in
  let n := length sorted_asc in
  let index := map Z.of_nat (arange1 n) in
  let weighted := int64 (2 * np_sum (np_multiply index sorted_asc)) in
  let total := int64 (Z.of_nat n * np_sum sorted_asc) in
  let share := PrimFloat.div (float64 weighted) (float64 total) in
  if n =? 0 then Raises ZeroDivisionError
  else Returns (PrimFloat.sub share
                  (PrimFloat.div (float64 (Z.of_nat (n + 1))) (float64 (Z.of_nat n)))).

(** The same expression in exact rational arithmetic, for a sample whose
    sums stay inside int64; [None] where the code divides by zero.
    [rank_weighted_sum k] weighs the items by k, k + 1, ... *)
Definition exact_sum (l : list Z) : Z := fold_right Z.add 0%Z l.

Definition rank_weighted_sum (k : nat) (l : list Z) : Z :=
  fold_right Z.add 0%Z
    (map (fun p => fst p * snd p)%Z (combine (map Z.of_nat (seq k (length l))) l)).

Definition gini_exact (data : list Z) : option Q :=
  let sorted_asc := np_sort Z.leb data in
  let n := length sorted_asc in
  let weighted := (2 * rank_weighted_sum 1 sorted_asc)%Z in
  let total := (Z.of_nat n * exact_sum sorted_asc)%Z in
  if (total =? 0)%Z then None
  else Some (inject_Z weighted / inject_Z total
             - inject_Z (Z.of_nat (n + 1)) / inject_Z (Z.of_nat n))%Q.

(** *** The rank-size regression, in exact real arithmetic *)

Local Open Scope R_scope.

Definition log10 (x : R) : R := ln x / ln 10.

(** A float64 result that is a real number or nan (from 0.0 / 0.0). *)
Inductive number :=
| Finite (r : R)
| NaN.

Definition negative (x : number) : number :=
  match x with
  | Finite r => Finite (- r)
  | NaN => NaN
  end.

(** == and < on float64 values that are real numbers. *)
Definition Reqb (a b : R) : bool := if Req_dec_T a b then true else false.
Definition Rltb (a b : R) : bool := if Rlt_dec a b then true else false.

Definition np_mean (l : list R) : R := fold_right Rplus 0 l / INR (length l).

(** An entry of np.cov(x, y, bias=1): the mean of the products of the
    deviations. *)
Definition np_cov (x y : list R) : R :=
  np_mean (map (fun p => (fst p - np_mean x) * (snd p - np_mean y)) (combine x y)).

Definition np_amax (l : list R) : R :=
  match l with
  | [] => 0
  | a :: rest => fold_right Rmax a rest
  end.

Definition np_amin (l : list R) : R :=
  match l with
  | [] => 0
  | a :: rest => fold_right Rmin a rest
  end.

Record LinregressResult := {
  slope : number;
  rvalue : R
}.

(** scipy.stats.linregress (SciPy's, not a part of the repository), by
    the formulas of its documentation and as far as the scripts use its
    result: the refusal of empty, unequal or constant-x inputs,
    slope = ssxym / ssxm and r = ssxym / sqrt(ssxm * ssym), kept inside
    [-1, 1].  On a variance that is 0 and on empty input the releases of
    SciPy differ (r = 0.0 and ValueError in the older ones, as written
    here; nan in the newer ones): no statement below rests on either
    case. *)
Definition linregress (x y : list R) : outcome LinregressResult :=
  if ((length x =? 0) || (length y =? 0))%nat then Raises ValueError
  else if negb (length x =? length y)%nat then Raises ValueError
  else if Reqb (np_amax x) (np_amin x) && (1 <? length x)%nat then Raises ValueError
  else
    let ssxm := np_cov x x in
    let ssxym := np_cov x y in
    let ssym := np_cov y y in
    let r :=
      if Reqb ssxm 0 || Reqb ssym 0 then 0
      else
        let r := ssxym / sqrt (ssxm * ssym) in
        if Rltb 1 r then 1
        else if Rltb r (-1) then -1
        else r in
    Returns {| slope := if Reqb ssxm 0 then NaN else Finite (ssxym / ssxm);
               rvalue := r |}.

(** What [calculate_power_law] returns: (None, None, None) or
    (alpha, r_squared, len(data)). *)
Inductive power_law :=
| NoData
| Fit (alpha : number) (r_squared : R) (n : nat).

(** x > 0 *)
Definition Qpositive (x : Q) : bool := negb (Qle_bool x 0).

(** data = np.array([x for x in data if x > 0]) *)
Definition positive_values (data : list Q) : list Q := filter (fun x => Qpositive x = true) data.

(** sorted_data = np.sort(data)[::-1] *)
Definition sorted_data (data : list Q) : list Q := rev (np_sort Qle_bool data).

(** The regression both scripts run on the descending sample. *)
Definition rank_size_regression (sorted : list Q) : outcome LinregressResult :=
  let ranks := arange1 (length sorted) in
  let log_ranks := map log10 (map INR ranks) in
  let log_values := map log10 (map Q2R sorted) in
  linregress log_ranks log_values.

Definition calculate_power_law (data : list Q) : outcome power_law :=
  let data := positive_values data in
  if (length data =? 0)%nat then Returns NoData
  else
    match rank_size_regression (sorted_data data) with
    | Raises e => Raises e
    | Returns fit => Returns (Fit (negative (slope fit)) (rvalue fit ^ 2) (length data))
    end.

(** Every number [calculate_power_law] hands to np.log10, in call order. *)
Definition log10_arguments (data : list Q) : list R :=
  let data := positive_values data in
  if (length data =? 0)%nat then []
  else map INR (arange1 (length (sorted_data data))) ++ map Q2R (sorted_data data).

(** [calculate_power_law_metrics] of analyze_review_power_law.py, its
    first two entries: no filter and no guard before the regression. *)
Definition calculate_power_law_metrics (data : list Q) : outcome (number * R) :=
  match rank_size_regression (sorted_data data) with
  | Raises e => Raises e
  | Returns fit => Returns (negative (slope fit), rvalue fit ^ 2)
  end.

(** *** Two samples of four

    The sample of the regression example, which halves from rank to
    rank, and one that is 12 / rank. *)

Definition geometric_sample : list Q := [1000; 500; 250; 125]%Q.

Definition harmonic_sample : list Q := [12; 6; 4; 3]%Q.

(** Their log-ranks and log-values, with [a] for log10 2 and [b] for
    log10 3. *)
Definition ranks4 (a b : R) : list R := [0; a; b; 2 * a].
Definition values4 (a b : R) : list R := [3; 3 - a; 3 - 2 * a; 3 - 3 * a].
Definition harmonic_values4 (a b : R) : list R := [2 * a + b; a + b; 2 * a; b].

End Analysis.

(** *** Concentration ratios: src/analyze_review_power_law.py and
       src/check_power_law.py *)

Module Concentration.
Import Analysis.
Import PrimFloat.

(** int(x) of a float64: truncation towards zero (of a finite x; the
    scripts apply it to products and quotients of small integers). *)
Definition python_int (x : PrimFloat.float) : Z :=
  match FloatOps.Prim2SF x with
  | SpecFloat.S754_finite s m e =>
      let magnitude :=
        if (0 <=? e)%Z then (Z.pos m * 2 ^ e)%Z else (Z.pos m / 2 ^ (- e))%Z in
      if s then (- magnitude)%Z else magnitude
  | _ => 0%Z
  end.

(** The float64 values of the literals 0.2, 0.01, 0.05 and 0.10. *)
Definition literal_0_2 : PrimFloat.float := 0x1.999999999999ap-3%float.
Definition literal_0_01 : PrimFloat.float := 0x1.47ae147ae147bp-7%float.
Definition literal_0_05 : PrimFloat.float := 0x1.999999999999ap-5%float.
Definition literal_0_10 : PrimFloat.float := 0x1.999999999999ap-4%float.

(** int(n * c) for a length n and a float literal c. *)
Definition fraction_of (n : nat) (c : PrimFloat.float) : nat :=
  Z.to_nat (python_int (PrimFloat.mul (float64 (Z.of_nat n)) c)).

(** int(n * pct / 100) of check_power_law.py: the product is an int, the
    quotient a float64. *)
Definition percent_of (n pct : nat) : nat :=
  Z.to_nat (python_int (PrimFloat.div (float64 (Z.of_nat (n * pct))) (float64 100))).

(** np.sort(data)[::-1] of an integer array. *)
Definition sorted_desc (data : list Z) : list Z := rev (np_sort Z.leb data).

(** np.sum(sorted_data[:k]) and np.sum(sorted_data) of an int64 array:
    int64 sums. *)
Definition top_sum (k : nat) (data : list Z) : Z := np_sum (firstn k (sorted_desc data)).

Definition total_sum (data : list Z) : Z := np_sum (sorted_desc data).

(** top_sum / total_sum.  numpy divides two int64 scalars as float64
    values; a zero divisor gives nan or an infinity, not an exception. *)
Definition top_share (k : nat) (data : list Z) : PrimFloat.float :=
  PrimFloat.div (float64 (top_sum k data)) (float64 (total_sum data)).

(** The four ratios of [calculate_power_law_metrics]
    (analyze_review_power_law.py, lines 67-76). *)
Record concentration := {
  pareto_20 : PrimFloat.float;
  top_1_pct : PrimFloat.float;
  top_5_pct : PrimFloat.float;
  top_10_pct : PrimFloat.float
}.

Definition concentration_metrics (data : list Z) : concentration :=
  let n := length data in
  {| pareto_20 := top_share (fraction_of n literal_0_2) data;
     top_1_pct := top_share (Nat.max 1 (fraction_of n literal_0_01)) data;
     top_5_pct := top_share (Nat.max 1 (fraction_of n literal_0_05)) data;
     top_10_pct := top_share (Nat.max 1 (fraction_of n literal_0_10)) data |}.

(** The ratios check_power_law.py prints (lines 93-112), for a
    player_count column that loads as int64: the top 20 % and, for pct in
    [1, 5, 10], the top pct %. *)
Definition top_20_ratio (data : list Z) : PrimFloat.float :=
  top_share (fraction_of (length data) literal_0_2) data.

Definition top_pct_ratio (pct : nat) (data : list Z) : PrimFloat.float :=
  top_share (percent_of (length data) pct) data.

(** *** Notions used in the statements

    The sum of the [k] largest values as an integer, and the float64
    quotient of two integers. *)
Definition largest_sum (k : nat) (data : list Z) : Z := exact_sum (firstn k (sorted_desc data)).

Definition quotient (a b : Z) : PrimFloat.float := PrimFloat.div (float64 a) (float64 b).

End Concentration.

(** *** evaluate_power_law of src/analyze_review_power_law.py *)

Module Evaluation.
Import PrimFloat.
Local Open Scope float_scope.

(** The entries of the metrics dict that [evaluate_power_law] reads:
    float64 values, nan included. *)
Record metrics := {
  r_squared : float;
  alpha : float;
  gini : float;
  pareto_20 : float;
  top_1_pct : float
}.

(** The four closing lines. *)
Inductive conclusion :=
| VeryStrongPowerLaw    (* score >= 4.5 *)
| ClearPowerLaw         (* score >= 3.5 *)
| WeakTendency          (* score >= 2.5 *)
| NoPowerLaw.

(** The float64 values of the literals that are not exact in binary. *)
Definition literal_0_95 : float := 0x1.e666666666666p-1.
Definition literal_0_90 : float := 0x1.ccccccccccccdp-1.
Definition literal_0_80 : float := 0x1.999999999999ap-1.
Definition literal_0_7 : float := 0x1.6666666666666p-1.
Definition literal_0_6 : float := 0x1.3333333333333p-1.
Definition literal_0_3 : float := 0x1.3333333333333p-2.

(** The score after each of the five criteria.  [score] starts as the
    int 0 and becomes a float with the first fractional addend; an int
    up to 5 and the float of the same value add and compare alike, so
    the score is a float64 throughout. *)
Definition after_r_squared (m : metrics) (score : float) : float :=
  if literal_0_95 <? r_squared m then score + 1
  else if literal_0_90 <? r_squared m then score + literal_0_80
  else if literal_0_80 <? r_squared m then score + 0.5
  else score.

Definition after_alpha (m : metrics) (score : float) : float :=
  if (1 <? alpha m) && (alpha m <? 3) then score + 1
  else if (0.5 <? alpha m) && (alpha m <=? 1) then score + literal_0_7
  else if (3 <=? alpha m) && (alpha m <? 4) then score + 0.5
  else score.

Definition after_gini (m : metrics) (score : float) : float :=
  if literal_0_80 <? gini m then score + 1
  else if literal_0_6 <? gini m then score + literal_0_7
  else score + literal_0_3.

Definition after_pareto (m : metrics) (score : float) : float :=
  if literal_0_80 <? pareto_20 m then score + 1
  else if literal_0_7 <? pareto_20 m then score + literal_0_80
  else score + 0.5.

Definition after_top_1 (m : metrics) (score : float) : float :=
  if 0.5 <? top_1_pct m then score + 1
  else if literal_0_3 <? top_1_pct m then score + literal_0_7
  else score + literal_0_3.

Definition final_score (m : metrics) : float :=
  after_top_1 m (after_pareto m (after_gini m (after_alpha m (after_r_squared m 0)))).

Definition conclude (score : float) : conclusion :=
  if 4.5 <=? score then VeryStrongPowerLaw
  else if 3.5 <=? score then ClearPowerLaw
  else if 2.5 <=? score then WeakTendency
  else NoPowerLaw.

(** What [evaluate_power_law] prints last: the total and the conclusion. *)
Definition evaluate_power_law (m : metrics) : float * conclusion :=
  (final_score m, conclude (final_score m)).

(** The same total in exact decimal arithmetic: the branches are those
    of the code (float64 comparisons of the metrics), the addends are the
    rationals 1, 8/10, 7/10, 5/10 and 3/10. *)
Definition decimal_score (m : metrics) : Q :=
  ((if literal_0_95 <? r_squared m then 1
    else if literal_0_90 <? r_squared m then 8 # 10
    else if literal_0_80 <? r_squared m then 5 # 10
    else 0)
   + (if (1 <? alpha m) && (alpha m <? 3) then 1
      else if (0.5 <? alpha m) && (alpha m <=? 1) then 7 # 10
      else if (3 <=? alpha m) && (alpha m <? 4) then 5 # 10
      else 0)
   + (if literal_0_80 <? gini m then 1
      else if literal_0_6 <? gini m then 7 # 10
      else 3 # 10)
   + (if literal_0_80 <? pareto_20 m then 1
      else if literal_0_7 <? pareto_20 m then 8 # 10
      else 5 # 10)
   + (if 0.5 <? top_1_pct m then 1
      else if literal_0_3 <? top_1_pct m then 7 # 10
      else 3 # 10))%Q.

Definition decimal_conclusion (score : Q) : conclusion :=
  if Qle_bool (45 # 10) score then VeryStrongPowerLaw
  else if Qle_bool (35 # 10) score then ClearPowerLaw
  else if Qle_bool (25 # 10) score then WeakTendency
  else NoPowerLaw.

(** Two dicts to evaluate: nan for R-squared and alpha (a regression on
    a single point) with the concentration criteria at their best, and
    all five criteria at their best. *)
Definition degenerate_metrics : metrics :=
  {| r_squared := nan; alpha := nan; gini := literal_0_90; pareto_20 := literal_0_90;
     top_1_pct := literal_0_90 |}.

Definition best_metrics : metrics :=
  {| r_squared := 1; alpha := 2; gini := literal_0_90; pareto_20 := literal_0_90;
     top_1_pct := literal_0_90 |}.

End Evaluation.

(** * Facts *)

(** ** SteamPlayerCountCollector *)

Module PlayerCountFacts.
Import PlayerCount.

Section Loop.
Variables (self : collector) (w : world) (prefix : string).

Lemma get_player_count_app_id i app r :
  get_player_count w i app = Some r -> app_id r = app.
Proof.
  unfold get_player_count.
  destruct (remote w i app) as [|code [res|] [c|]]; try discriminate.
  destruct (_ && _)%bool; [|discriminate].
  intros [= <-]. reflexivity.
Qed.

Lemma checkpoint_all_data i s : all_data (checkpoint self w prefix i s) = all_data s.
Proof. unfold checkpoint. destruct (_ =? 0); reflexivity. Qed.

Lemma checkpoint_processed_ids i s :
  processed_ids (checkpoint self w prefix i s) = processed_ids s.
Proof. unfold checkpoint. destruct (_ =? 0); reflexivity. Qed.

Lemma checkpoint_run_stats i s : run_stats (checkpoint self w prefix i s) = run_stats s.
Proof. unfold checkpoint. destruct (_ =? 0); reflexivity. Qed.

Lemma fetch_one_consistent i app s :
  app ∉ processed_ids s -> consistent s -> consistent (fetch_one w i app s).
Proof.
  intros Hnew [Hset Hdup]. unfold fetch_one.
  destruct (get_player_count w i app) as [r|] eqn:Hget; [|split; assumption].
  apply get_player_count_app_id in Hget.
  split; simpl; rewrite map_app; simpl; rewrite Hget.
  - rewrite list_to_set_app_L, <- Hset. simpl. rewrite union_empty_r_L. reflexivity.
  - apply NoDup_app. split; [assumption|]. split.
    + intros x Hx [->|[]]%list_elem_of_In. apply Hnew. rewrite Hset.
      apply elem_of_list_to_set. assumption.
    + apply NoDup_singleton.
Qed.

Lemma body_consistent i app s : consistent s -> consistent (body self w prefix i app s).
Proof.
  intros Hs. unfold body. destruct (decide (app ∈ processed_ids s)) as [|Hnew]; [assumption|].
  unfold consistent. rewrite checkpoint_all_data, checkpoint_processed_ids.
  apply fetch_one_consistent; assumption.
Qed.

Lemma loop_consistent ids : forall i s,
  consistent s -> consistent (loop self w prefix i ids s).
Proof.
  induction ids as [|app rest IH]; intros i s Hs; simpl; [assumption|].
  apply IH, body_consistent, Hs.
Qed.

Lemma loop_app ids1 ids2 : forall i s,
  loop self w prefix i (ids1 ++ ids2) s
  = loop self w prefix (i + length ids1) ids2 (loop self w prefix i ids1 s).
Proof.
  induction ids1 as [|app rest IH]; intros i s; simpl.
  - rewrite Nat.add_0_r. reflexivity.
  - rewrite IH. f_equal. lia.
Qed.

Lemma start_consistent d ids resume before :
  distinct_snapshots d -> consistent (start self d prefix ids resume before).
Proof.
  intros Hd. unfold start, consistent. simpl. split; [reflexivity|].
  destruct resume; [|apply NoDup_nil; exact I].
  unfold find_checkpoint.
  induction (range_down (length ids) (checkpoint_interval self)) as [|i rest IH]; simpl.
  - apply NoDup_nil; exact I.
  - destruct (checkpoint_files d !! (prefix, i)) as [[data|]|] eqn:Hfile; try exact IH.
    eapply Hd, Hfile.
Qed.

Lemma body_successful i app s :
  successful (run_stats s) = length (all_data s) ->
  successful (run_stats (body self w prefix i app s))
  = length (all_data (body self w prefix i app s)).
Proof.
  intros Hs. unfold body. destruct (decide _); [assumption|].
  rewrite checkpoint_run_stats, checkpoint_all_data. unfold fetch_one.
  destruct (get_player_count w i app); simpl; [|assumption].
  rewrite length_app, Hs. simpl. lia.
Qed.

Lemma loop_successful ids : forall i s,
  successful (run_stats s) = length (all_data s) ->
  successful (run_stats (loop self w prefix i ids s))
  = length (all_data (loop self w prefix i ids s)).
Proof.
  induction ids as [|app rest IH]; intros i s Hs; simpl; [assumption|].
  apply IH, body_successful, Hs.
Qed.

Lemma body_total_requested i app s :
  total_requested (run_stats (body self w prefix i app s)) = total_requested (run_stats s).
Proof.
  unfold body. destruct (decide _); [reflexivity|].
  rewrite checkpoint_run_stats. unfold fetch_one.
  destruct (get_player_count w i app); reflexivity.
Qed.

Lemma loop_total_requested ids : forall i s,
  total_requested (run_stats (loop self w prefix i ids s)) = total_requested (run_stats s).
Proof.
  induction ids as [|app rest IH]; intros i s; simpl; [reflexivity|].
  rewrite IH. apply body_total_requested.
Qed.

(** What one turn does to the directory: nothing, or the two dumps of
    the state it has reached. *)
Lemma body_dir i app s :
  let s' := body self w prefix i app s in
  dir s' = dir s
  \/ dir s' = _save_processed_ids w i (processed_ids s') prefix
                (_save_checkpoint w i (all_data s') prefix (dir s)).
Proof.
  simpl. unfold body. destruct (decide _); [left; reflexivity|].
  unfold checkpoint. destruct (_ =? 0); simpl.
  - right. unfold fetch_one. destruct (get_player_count w i app); reflexivity.
  - left. unfold fetch_one. destruct (get_player_count w i app); reflexivity.
Qed.

Lemma state_after_S d ids resume before k app :
  ids !! k = Some app ->
  state_after self w d prefix ids resume before (S k)
  = body self w prefix (S k) app (state_after self w d prefix ids resume before k).
Proof.
  intros Hk. unfold state_after.
  rewrite (take_S_r _ _ _ Hk), loop_app. simpl.
  rewrite length_take, Nat.min_l; [f_equal; lia|].
  apply lookup_lt_Some in Hk. lia.
Qed.

Lemma state_after_ge d ids resume before k :
  length ids <= k ->
  state_after self w d prefix ids resume before k
  = final_state self w d prefix ids resume before.
Proof. intros Hk. unfold state_after, final_state. rewrite firstn_all2; [reflexivity|assumption]. Qed.

Lemma write_file_distinct o (k : string * nat) (data : list player_record) m :
  NoDup (map app_id data) ->
  (forall k' data', m !! k' = Some (Readable data') -> NoDup (map app_id data')) ->
  forall k' data', write_file o k data m !! k' = Some (Readable data') ->
                   NoDup (map app_id data').
Proof.
  intros Hdata Hm k' data'. destruct o; simpl; [| |apply Hm].
  - destruct (decide (k = k')) as [->|Hne].
    + rewrite lookup_insert_eq. intros [= <-]. assumption.
    + rewrite lookup_insert_ne by assumption. apply Hm.
  - destruct (decide (k = k')) as [->|Hne].
    + rewrite lookup_insert_eq. discriminate.
    + rewrite lookup_insert_ne by assumption. apply Hm.
Qed.

Lemma body_distinct_snapshots i app s :
  consistent s -> distinct_snapshots (dir s) ->
  distinct_snapshots (dir (body self w prefix i app s)).
Proof.
  intros Hs Hd.
  pose proof (body_consistent i app s Hs) as [_ Hdup].
  destruct (body_dir i app s) as [-> | ->]; [assumption|].
  intros p j data. simpl.
  apply write_file_distinct; [assumption|].
  intros [p' j'] data'. apply Hd.
Qed.

Lemma loop_distinct_snapshots ids : forall i s,
  consistent s -> distinct_snapshots (dir s) ->
  distinct_snapshots (dir (loop self w prefix i ids s)).
Proof.
  induction ids as [|app rest IH]; intros i s Hs Hd; simpl; [assumption|].
  apply IH; [apply body_consistent, Hs | apply body_distinct_snapshots; assumption].
Qed.

End Loop.

Lemma empty_directory_distinct : distinct_snapshots empty_directory.
Proof. intros p i data. simpl. rewrite lookup_empty. discriminate. Qed.

Section Resume.
Variables (self : collector) (w w0 : world) (prefix : string).
Hypothesis stable : same_fetch w w0.

Let fetch (app : Z) : option player_record := get_player_count w0 0 app.

Lemma filter_fresh_union (P : gset Z) (app : Z) (l : list Z) :
  app ∉ l ->
  filter (fun a => a ∉ P ∪ {[app]}) l = filter (fun a => a ∉ P) l.
Proof.
  induction l as [|x l IH]; intros Hnot; [reflexivity|].
  apply not_elem_of_cons in Hnot as [Hne Hnot].
  rewrite !filter_cons, IH by assumption.
  destruct (decide (x ∉ P ∪ {[app]})) as [H1|H1], (decide (x ∉ P)) as [H2|H2];
    try reflexivity; exfalso.
  - apply H2. intros Hx. apply H1, elem_of_union. left. assumption.
  - apply H1. intros [Hx| ->%elem_of_singleton]%elem_of_union; [apply H2, Hx|apply Hne; reflexivity].
Qed.

Lemma loop_all_data ids : forall i s,
  NoDup ids ->
  all_data (loop self w prefix i ids s)
  = all_data s ++ omap fetch (filter (fun a => a ∉ processed_ids s) ids).
Proof.
  induction ids as [|app rest IH]; intros i s Hdup; simpl.
  - rewrite app_nil_r. reflexivity.
  - apply NoDup_cons in Hdup as [Hnot Hdup].
    rewrite IH by assumption. unfold body. rewrite filter_cons.
    destruct (decide (app ∈ processed_ids s)) as [Hin|Hnew].
    + destruct (decide (app ∉ processed_ids s)); [contradiction|reflexivity].
    + destruct (decide (app ∉ processed_ids s)); [|contradiction].
      rewrite checkpoint_all_data, checkpoint_processed_ids.
      unfold fetch_one. simpl. unfold fetch at 2.
      rewrite (stable i 0 app).
      destruct (get_player_count w0 0 app) as [r|]; simpl.
      * rewrite filter_fresh_union by assumption. rewrite <- app_assoc. reflexivity.
      * reflexivity.
Qed.

Lemma fresh_all_data d ids before k :
  NoDup ids ->
  all_data (state_after self w d prefix ids false before k) = omap fetch (firstn k ids).
Proof.
  intros Hdup. unfold state_after. rewrite loop_all_data.
  - simpl. f_equal. induction (firstn k ids) as [|x l IH]; [reflexivity|].
    rewrite filter_cons. destruct (decide (x ∉ (∅ : gset Z))) as [|Hx].
    + f_equal. exact IH.
    + exfalso. apply Hx. apply not_elem_of_empty.
  - rewrite <- (firstn_skipn k ids) in Hdup. apply NoDup_app in Hdup. tauto.
Qed.

Lemma omap_fetch_ids (l : list Z) (x : Z) :
  x ∈ map app_id (omap fetch l) <-> x ∈ l /\ is_Some (fetch x).
Proof.
  induction l as [|a l IH]; simpl.
  - split; [intros H; inversion H | intros [H _]; inversion H].
  - destruct (fetch a) as [r|] eqn:Ha; simpl.
    + apply get_player_count_app_id in Ha as Hid. rewrite elem_of_cons, elem_of_cons, IH, Hid.
      split.
      * intros [->|[? ?]]; [split; [left; reflexivity|rewrite Ha; eauto]|split; [right|]; assumption].
      * intros [[->|?] ?]; [left; reflexivity|right; split; assumption].
    + rewrite IH, elem_of_cons. split.
      * intros [? ?]. split; [right|]; assumption.
      * intros [[->|?] Hs]; [rewrite Ha in Hs; destruct Hs; discriminate|split; assumption].
Qed.

Lemma omap_filter_nil (P : gset Z) (l : list Z) :
  (forall x, x ∈ l -> x ∉ P -> fetch x = None) ->
  omap fetch (filter (fun a => a ∉ P) l) = [].
Proof.
  induction l as [|x l IH]; intros Hl; [reflexivity|].
  rewrite filter_cons. destruct (decide (x ∉ P)) as [Hx|Hx].
  - simpl. rewrite (Hl x) by (assumption || left). apply IH.
    intros y Hy. apply Hl. right. assumption.
  - apply IH. intros y Hy. apply Hl. right. assumption.
Qed.

Lemma filter_all (P : gset Z) (l : list Z) :
  (forall x, x ∈ l -> x ∉ P) -> filter (fun a => a ∉ P) l = l.
Proof.
  induction l as [|x l IH]; intros Hl; [reflexivity|].
  rewrite filter_cons. destruct (decide (x ∉ P)) as [Hx|Hx].
  - f_equal. apply IH. intros y Hy. apply Hl. right. assumption.
  - exfalso. apply Hx, Hl. left.
Qed.

Lemma resumed_tail (l1 l2 : list Z) :
  NoDup (l1 ++ l2) ->
  omap fetch (filter (fun a => a ∉ (list_to_set (map app_id (omap fetch l1)) : gset Z)) (l1 ++ l2))
  = omap fetch l2.
Proof.
  intros Hdup. apply NoDup_app in Hdup as (_ & Hdisj & _).
  rewrite filter_app, omap_app, omap_filter_nil, filter_all; [reflexivity| |].
  - intros x Hx [Hin _]%elem_of_list_to_set%omap_fetch_ids. exact (Hdisj x Hin Hx).
  - intros x Hx Hnot. destruct (fetch x) as [r|] eqn:Hf; [|reflexivity].
    exfalso. apply Hnot, elem_of_list_to_set, omap_fetch_ids.
    split; [assumption|rewrite Hf; eauto].
Qed.

End Resume.

Lemma same_fetch_refl_r w w0 : same_fetch w w0 -> same_fetch w0 w0.
Proof. intros H i j app. rewrite <- (H 0 i), <- (H 0 j). reflexivity. Qed.

(** The list a resumed run ends with, when the checkpoint it loads (if
    it loads one) holds what an unbroken run had accumulated at some
    point: the list the unbroken run ends with. *)
Lemma resumed_all_data
  (self : collector) (w w0 : world) (prefix : string) (ids : list Z)
  (d d0 : directory) (before before0 : stats) :
  same_fetch w w0 ->
  NoDup ids ->
  (forall i cp, find_checkpoint self d prefix ids = Some (i, cp) ->
     exists k, cp = all_data (state_after self w0 d0 prefix ids false before0 k)) ->
  all_data (final_state self w d prefix ids true before)
  = all_data (final_state self w0 d0 prefix ids false before0).
Proof.
  intros Hsame Hdup Hcp.
  pose proof (same_fetch_refl_r _ _ Hsame) as Hsame0.
  rewrite <- (state_after_ge self w0 prefix d0 ids false before0 (length ids)) by lia.
  rewrite (fresh_all_data self w0 w0 prefix Hsame0) by assumption.
  rewrite firstn_all.
  unfold final_state. rewrite (loop_all_data self w w0 prefix Hsame) by assumption.
  unfold start. simpl.
  destruct (find_checkpoint self d prefix ids) as [[i cp]|] eqn:Hfind.
  - destruct (Hcp i cp eq_refl) as [k ->].
    rewrite (fresh_all_data self w0 w0 prefix Hsame0) by assumption.
    rewrite <- (firstn_skipn k ids) at 2 3.
    rewrite resumed_tail by (rewrite firstn_skipn; assumption).
    rewrite omap_app. reflexivity.
  - simpl. rewrite filter_all; [reflexivity|]. intros x _. apply not_elem_of_empty.
Qed.

(** C2: for a collector with a positive checkpoint interval, a list of
    distinct identifiers and an idempotent fetch ([same_fetch]: the
    answer for an identifier is the same at every position of either
    run), a run with resume=True that starts from a
    checkpoint holding what an unbroken run over the same list had
    accumulated after some number [k] of its turns, and completes the
    rest, ends with the very list the unbroken, unresumed run ends with;
    so the two hold the same identifier-to-record pairs. *)
Theorem resume_completes_like_fresh_run
  (self : collector) (w w0 : world) (prefix : string) (ids : list Z)
  (d d0 : directory) (before before0 : stats) :
  0 < checkpoint_interval self ->
  same_fetch w w0 ->
  NoDup ids ->
  (forall i cp, find_checkpoint self d prefix ids = Some (i, cp) ->
     exists k, cp = all_data (state_after self w0 d0 prefix ids false before0 k)) ->
  let resumed := all_data (final_state self w d prefix ids true before) in
  let fresh := all_data (final_state self w0 d0 prefix ids false before0) in
  resumed = fresh
  /\ forall id r, (r ∈ resumed /\ app_id r = id) <-> (r ∈ fresh /\ app_id r = id).
Proof.
  intros _ Hsame Hdup Hcp. simpl.
  pose proof (resumed_all_data self w w0 prefix ids d d0 before before0 Hsame Hdup Hcp) as Heq.
  split; [exact Heq|]. intros id r. rewrite Heq. reflexivity.
Qed.

(** C9: throughout [collect_bulk] of a collector with a positive
    checkpoint interval, the counter stats['successful'] is
    the length of the accumulated list (it starts as the length of the
    restored data and grows with every append), and the list the call
    returns has the final value of the counter as its length.  The call
    returns for every non-empty input; on the empty input the final
    statistics divide by total_requested = 0 and the call raises. *)
Theorem successful_counts_all_data
  (self : collector) (w : world) (d : directory) (prefix : string)
  (ids : list Z) (resume : bool) (before : stats) :
  0 < checkpoint_interval self ->
  (forall k,
     successful (run_stats (state_after self w d prefix ids resume before k))
     = length (all_data (state_after self w d prefix ids resume before k)))
  /\ match ids with
     | [] => collect_bulk self w d prefix ids resume before = Raises ZeroDivisionError
     | _ :: _ =>
         exists data,
           collect_bulk self w d prefix ids resume before = Returns data
           /\ length data
              = successful (run_stats (final_state self w d prefix ids resume before))
     end.
Proof.
  intros _.
  assert (forall l, successful (run_stats (loop self w prefix 1 l (start self d prefix ids resume before)))
                    = length (all_data (loop self w prefix 1 l (start self d prefix ids resume before)))) as H.
  { intros l. apply loop_successful. reflexivity. }
  split; [intros k; apply H|].
  unfold collect_bulk, final_state. rewrite loop_total_requested. simpl.
  destruct ids as [|app rest]; [reflexivity|]. simpl Nat.eqb.
  eexists. split; [reflexivity|]. symmetry. apply (H (app :: rest)).
Qed.

(** The count on the small run. *)
Lemma successful_counts_all_data_witness :
  (forall k,
     successful (run_stats (state_after demo_self demo_world empty_directory demo_prefix
                              demo_ids false demo_before k))
     = length (all_data (state_after demo_self demo_world empty_directory demo_prefix
                           demo_ids false demo_before k)))
  /\ exists data,
       collect_bulk demo_self demo_world empty_directory demo_prefix demo_ids false demo_before
       = Returns data
       /\ length data
          = successful (run_stats (final_state demo_self demo_world empty_directory demo_prefix
                                     demo_ids false demo_before)).
Proof.
  apply (successful_counts_all_data demo_self demo_world empty_directory demo_prefix
           demo_ids false demo_before).
  simpl. lia.
Defined.

Lemma range_down_from_spec c i : 0 < c -> forall fuel m,
  m <= fuel ->
  (i ∈ range_down_from fuel m c <-> 0 < i <= m /\ exists j, m = i + j * c).
Proof.
  intros Hc. induction fuel as [|fuel IH]; intros m Hm; simpl.
  - split; [intros H; inversion H | lia].
  - destruct (Nat.eqb_spec m 0) as [->|Hne].
    + split; [intros H; inversion H | lia].
    + rewrite elem_of_cons, IH by lia. split.
      * intros [->|[Hi [j Hj]]]; [split; [lia|exists 0; lia]|].
        split; [lia|]. exists (S j). simpl. lia.
      * intros [Hi [[|j] Hj]]; [left; lia|right].
        simpl in Hj. split; [lia|]. exists j. lia.
Qed.

Lemma range_down_spec n c i :
  0 < c -> (i ∈ range_down n c <-> 0 < i <= n /\ exists j, n = i + j * c).
Proof. intros Hc. apply range_down_from_spec; [assumption|reflexivity]. Qed.

Lemma first_readable_Some d prefix l i data :
  first_readable d prefix l = Some (i, data) ->
  exists l1 l2, l = l1 ++ i :: l2
    /\ checkpoint_files d !! (prefix, i) = Some (Readable data)
    /\ forall j data', j ∈ l1 -> checkpoint_files d !! (prefix, j) <> Some (Readable data').
Proof.
  induction l as [|a l IH]; simpl; [discriminate|].
  destruct (checkpoint_files d !! (prefix, a)) as [[data0|]|] eqn:Ha.
  - intros [= -> ->]. exists [], l. split; [reflexivity|]. split; [assumption|].
    intros j data' Hj. inversion Hj.
  - intros (l1 & l2 & -> & Hi & Hl1)%IH. exists (a :: l1), l2.
    split; [reflexivity|]. split; [assumption|].
    intros j data' [->|Hj]%elem_of_cons; [rewrite Ha; discriminate|apply Hl1, Hj].
  - intros (l1 & l2 & -> & Hi & Hl1)%IH. exists (a :: l1), l2.
    split; [reflexivity|]. split; [assumption|].
    intros j data' [->|Hj]%elem_of_cons; [rewrite Ha; discriminate|apply Hl1, Hj].
Qed.

Lemma first_readable_None d prefix l :
  first_readable d prefix l = None ->
  forall j data', j ∈ l -> checkpoint_files d !! (prefix, j) <> Some (Readable data').
Proof.
  induction l as [|a l IH]; simpl; intros H j data' Hj; [inversion Hj|].
  destruct (checkpoint_files d !! (prefix, a)) as [[data0|]|] eqn:Ha; try discriminate;
    apply elem_of_cons in Hj as [->|Hj]; try (rewrite Ha; discriminate); apply IH; assumption.
Qed.

Lemma range_down_from_bound c i : forall fuel m,
  i ∈ range_down_from fuel m c -> 0 < i <= m.
Proof.
  induction fuel as [|fuel IH]; intros m; simpl; [intros H; inversion H|].
  destruct (Nat.eqb_spec m 0) as [->|Hne]; [intros H; inversion H|].
  intros [->|H]%elem_of_cons; [lia|]. apply IH in H. lia.
Qed.

Lemma range_down_from_descending c : 0 < c -> forall fuel m l1 i l2,
  range_down_from fuel m c = l1 ++ i :: l2 -> forall j, j ∈ l1 -> i < j.
Proof.
  intros Hc. induction fuel as [|fuel IH]; intros m l1 i l2; simpl.
  - destruct l1; discriminate.
  - destruct (Nat.eqb_spec m 0) as [->|Hne]; [destruct l1; discriminate|].
    destruct l1 as [|a l1]; simpl; [intros _ j Hj; inversion Hj|].
    intros [= <- Hrest] j [->|Hj]%elem_of_cons.
    + assert (i ∈ range_down_from fuel (m - c) c) as Hi
        by (rewrite Hrest; apply elem_of_app; right; left).
      apply range_down_from_bound in Hi. lia.
    + eapply IH; eassumption.
Qed.

(** What the scan finds, when it finds something: the highest position of
    the form len(app_ids) - j * checkpoint_interval that has a loadable
    file. *)
Lemma find_checkpoint_Some self d prefix ids i data :
  0 < checkpoint_interval self ->
  find_checkpoint self d prefix ids = Some (i, data) ->
  checkpoint_files d !! (prefix, i) = Some (Readable data)
  /\ (0 < i <= length ids /\ exists j, length ids = i + j * checkpoint_interval self)
  /\ forall i' data', i < i' ->
       (exists j, length ids = i' + j * checkpoint_interval self) ->
       checkpoint_files d !! (prefix, i') <> Some (Readable data').
Proof.
  intros Hc (l1 & l2 & Hl & Hi & Hl1)%first_readable_Some.
  split; [assumption|]. split.
  - apply (range_down_spec _ _ _ Hc). rewrite Hl. apply elem_of_app. right. left.
  - intros i' data' Hlt [j Hj]. 
    assert (i' ∈ range_down (length ids) (checkpoint_interval self)) as Hin
      by (apply range_down_spec; [assumption|split; [lia|eauto]]).
    rewrite Hl in Hin. apply elem_of_app in Hin as [Hin|Hin]; [apply Hl1, Hin|].
    exfalso. apply elem_of_cons in Hin as [->|Hin]; [lia|].
    assert (i' < i); [|lia].
    unfold range_down in Hl.
    change (l1 ++ i :: l2) with (l1 ++ [i] ++ l2) in Hl.
    apply list_elem_of_split in Hin as (l3 & l4 & ->).
    eapply (range_down_from_descending _ Hc _ _ (l1 ++ i :: l3) i' l4).
    + rewrite Hl. rewrite <- app_assoc. reflexivity.
    + apply elem_of_app. right. left.
Qed.

Lemma find_checkpoint_None self d prefix ids :
  0 < checkpoint_interval self ->
  find_checkpoint self d prefix ids = None ->
  forall i data, 0 < i <= length ids ->
    (exists j, length ids = i + j * checkpoint_interval self) ->
    checkpoint_files d !! (prefix, i) <> Some (Readable data).
Proof.
  intros Hc Hnone i data Hi Hj. eapply first_readable_None; [exact Hnone|].
  apply range_down_spec; auto.
Qed.

(** Every position at which the loop dumps a checkpoint is a multiple of
    the interval ... *)
Lemma checkpoint_written_at_multiple self w prefix i s :
  dir (checkpoint self w prefix i s) <> dir s -> i mod checkpoint_interval self = 0.
Proof.
  unfold checkpoint. destruct (Nat.eqb_spec (i mod checkpoint_interval self) 0); [auto|].
  intros H. exfalso. apply H. reflexivity.
Qed.

(** ... and the scan visits a multiple of the interval only when the
    length of the input is one. *)
Lemma scan_visits_multiples self (ids : list Z) i :
  0 < checkpoint_interval self ->
  i ∈ range_down (length ids) (checkpoint_interval self) ->
  i mod checkpoint_interval self = 0 ->
  length ids mod checkpoint_interval self = 0.
Proof.
  intros Hc [_ [j Hj]]%range_down_spec Hi; [|assumption].
  rewrite Hj, Nat.Div0.mod_add. assumption.
Qed.

(** C3, on the run of [demo_ids] with interval 2 that was killed after
    its second turn: the checkpoint of position 2 is on disk and
    readable, 2 does not exceed the length 3 of the input, yet the scan
    of resume=True looks at positions 3 and 1 only, loads nothing and
    starts from the empty state. *)
Theorem resume_scan_misses_checkpoint :
  checkpoint_files demo_interrupted !! (demo_prefix, 2)
    = Some (Readable [demo_record 10; demo_record 20])
  /\ 2 <= length demo_ids
  /\ range_down (length demo_ids) (checkpoint_interval demo_self) = [3; 1]
  /\ find_checkpoint demo_self demo_interrupted demo_prefix demo_ids = None
  /\ start_index demo_self demo_interrupted demo_prefix demo_ids true = 0
  /\ all_data (start demo_self demo_interrupted demo_prefix demo_ids true demo_before) = []
  /\ processed_ids (start demo_self demo_interrupted demo_prefix demo_ids true demo_before) = ∅.
Proof.
  assert (find_checkpoint demo_self demo_interrupted demo_prefix demo_ids = None) as Hnone
    by (vm_compute; reflexivity).
  split; [vm_compute; reflexivity|].
  split; [simpl; lia|].
  split; [reflexivity|].
  split; [exact Hnone|].
  unfold start_index, start. rewrite Hnone. simpl. auto.
Qed.

Lemma demo_world_same_fetch : same_fetch demo_world demo_world.
Proof. intros i j app. reflexivity. Qed.

(** The resumed and the unbroken run of [demo_ids] with interval 1, the
    first one killed after its second turn. *)
Lemma resume_completes_like_fresh_run_witness :
  let resumed :=
    all_data (final_state demo_self1 demo_world demo_interrupted1 demo_prefix demo_ids true demo_before) in
  let fresh :=
    all_data (final_state demo_self1 demo_world empty_directory demo_prefix demo_ids false demo_before) in
  resumed = fresh
  /\ forall id r, (r ∈ resumed /\ app_id r = id) <-> (r ∈ fresh /\ app_id r = id).
Proof.
  apply (resume_completes_like_fresh_run demo_self1 demo_world demo_world demo_prefix
           demo_ids demo_interrupted1 empty_directory demo_before demo_before).
  - simpl. lia.
  - exact demo_world_same_fetch.
  - apply (bool_decide_unpack _). vm_compute. exact I.
  - intros i cp H. exists 2. vm_compute in H. injection H as <- <-. vm_compute. reflexivity.
Defined.

Section Interrupted.
Variables (self : collector) (w0 : world) (prefix : string) (ids : list Z)
  (d0 : directory) (before0 : stats).
Hypothesis unused_prefix : forall i, checkpoint_files d0 !! (prefix, i) = None.

Lemma snapshots_are_earlier_states k : forall i cp,
  checkpoint_files (dir (state_after self w0 d0 prefix ids false before0 k)) !! (prefix, i)
    = Some (Readable cp) ->
  exists j, cp = all_data (state_after self w0 d0 prefix ids false before0 j).
Proof.
  induction k as [|k IH]; intros i cp.
  - unfold state_after. simpl. rewrite unused_prefix. discriminate.
  - destruct (ids !! k) as [app|] eqn:Hk.
    + rewrite (state_after_S self w0 prefix d0 ids false before0 k app Hk).
      destruct (body_dir self w0 prefix (S k) app
                  (state_after self w0 d0 prefix ids false before0 k)) as [-> | ->];
        [apply IH|].
      simpl. rewrite <- (state_after_S self w0 prefix d0 ids false before0 k app Hk).
      destruct (io w0 (S k) CheckpointFile); simpl; [| |apply IH].
      * destruct (decide ((prefix, S k) = (prefix, i))) as [Heq|Hne].
        -- rewrite Heq, lookup_insert_eq. intros [= <-]. eauto.
        -- rewrite lookup_insert_ne by assumption. apply IH.
      * destruct (decide ((prefix, S k) = (prefix, i))) as [Heq|Hne].
        -- rewrite Heq, lookup_insert_eq. discriminate.
        -- rewrite lookup_insert_ne by assumption. apply IH.
    + apply lookup_ge_None in Hk.
      rewrite state_after_ge by lia. rewrite <- (state_after_ge self w0 prefix d0 ids false before0 k) by lia.
      apply IH.
Qed.

End Interrupted.

(** A run killed after any number of turns, then started again with
    resume=True on the same list, ends with the list an unbroken run
    gives: whether or not the scan finds one of the checkpoints. *)
Theorem interrupted_run_resumes_to_same_result
  (self : collector) (w w0 : world) (prefix : string) (ids : list Z)
  (d0 : directory) (before before0 : stats) (k : nat) :
  0 < checkpoint_interval self ->
  same_fetch w w0 ->
  NoDup ids ->
  (forall i, checkpoint_files d0 !! (prefix, i) = None) ->
  let interrupted := dir (state_after self w0 d0 prefix ids false before0 k) in
  all_data (final_state self w interrupted prefix ids true before)
  = all_data (final_state self w0 d0 prefix ids false before0).
Proof.
  intros _ Hsame Hdup Hfresh. simpl.
  apply (resumed_all_data self w w0 prefix ids _ d0 before before0 Hsame Hdup).
  intros i cp (l1 & l2 & _ & Hfile & _)%first_readable_Some.
  eapply snapshots_are_earlier_states; eassumption.
Qed.

Lemma interrupted_run_resumes_to_same_result_witness :
  all_data (final_state demo_self demo_world demo_interrupted demo_prefix demo_ids true demo_before)
  = all_data (final_state demo_self demo_world empty_directory demo_prefix demo_ids false demo_before).
Proof.
  apply (interrupted_run_resumes_to_same_result demo_self demo_world demo_world demo_prefix
           demo_ids empty_directory demo_before demo_before 2).
  - simpl. lia.
  - exact demo_world_same_fetch.
  - apply (bool_decide_unpack _). vm_compute. exact I.
  - intros i. reflexivity.
Defined.

(** *** The turns of the loop, its files and its counters *)

Section Turns.
Variables (self : collector) (w : world) (prefix : string).

Lemma enumerate_cons {A : Type} (x : A) (l : list A) (i : nat) :
  enumerate (x :: l) i = (i, x) :: enumerate l (S i).
Proof. reflexivity. Qed.

Lemma enumerate_snd {A : Type} (l : list A) : forall i turn,
  turn ∈ enumerate l i -> turn.2 ∈ l.
Proof.
  induction l as [|x l IH]; intros i turn Hin; [inversion Hin|].
  rewrite enumerate_cons in Hin. apply elem_of_cons in Hin as [-> | Hin]; [left|].
  right. exact (IH _ _ Hin).
Qed.

Lemma filter_turns_union (known : gset Z) (app : Z) (l : list Z) : forall i,
  app ∉ l ->
  filter (fun turn : nat * Z => turn.2 ∉ known ∪ {[app]}) (enumerate l i)
  = filter (fun turn : nat * Z => turn.2 ∉ known) (enumerate l i).
Proof.
  induction l as [|x l IH]; intros i Hnot; [reflexivity|].
  apply not_elem_of_cons in Hnot as [Hne Hnot].
  rewrite enumerate_cons, !filter_cons, IH by assumption. simpl.
  destruct (decide (x ∉ known ∪ {[app]})) as [H1|H1], (decide (x ∉ known)) as [H2|H2];
    try reflexivity; exfalso.
  - apply H2. intros Hx. apply H1, elem_of_union. left. assumption.
  - apply H1. intros [Hx| ->%elem_of_singleton]%elem_of_union; [apply H2, Hx|apply Hne; reflexivity].
Qed.


(** A turn changes the directory only at a multiple of the interval. *)
Lemma body_dir_multiple i app s :
  let s' := body self w prefix i app s in
  dir s' = dir s
  \/ (i mod checkpoint_interval self = 0
      /\ dir s' = _save_processed_ids w i (processed_ids s') prefix
                    (_save_checkpoint w i (all_data s') prefix (dir s))).
Proof.
  simpl. unfold body. destruct (decide _); [left; reflexivity|].
  unfold checkpoint. destruct (Nat.eqb_spec (i mod checkpoint_interval self) 0); simpl.
  - right. split; [assumption|].
    unfold fetch_one. destruct (get_player_count w i app); reflexivity.
  - left. unfold fetch_one. destruct (get_player_count w i app); reflexivity.
Qed.

(** The loop only appends. *)
Lemma loop_extends ids : forall i s, all_data s `prefix_of` all_data (loop self w prefix i ids s).
Proof.
  induction ids as [|app rest IH]; intros i s; simpl; [reflexivity|].
  etransitivity; [|apply IH].
  unfold body. destruct (decide _); [reflexivity|].
  rewrite checkpoint_all_data. unfold fetch_one.
  destruct (get_player_count w i app); simpl; [apply prefix_app_r|]; reflexivity.
Qed.

Lemma state_after_prefix d ids resume before k :
  all_data (state_after self w d prefix ids resume before k)
  `prefix_of` all_data (final_state self w d prefix ids resume before).
Proof.
  unfold state_after, final_state.
  rewrite <- (take_drop k ids) at 3. rewrite loop_app. apply loop_extends.
Qed.

Lemma checkpoint_files_after d ids resume before k : forall p i,
  let files := checkpoint_files (dir (state_after self w d prefix ids resume before k)) in
  files !! (p, i) = checkpoint_files d !! (p, i)
  \/ (p = prefix /\ 0 < i <= k /\ i <= length ids /\ i mod checkpoint_interval self = 0
      /\ (files !! (p, i) = Some Garbled
          \/ files !! (p, i)
             = Some (Readable (all_data (state_after self w d prefix ids resume before i))))).
Proof.
  induction k as [|k IH]; intros p i; simpl.
  - left. reflexivity.
  - destruct (ids !! k) as [app|] eqn:Hk.
    + pose proof (lookup_lt_Some _ _ _ Hk) as Hlen.
      assert (checkpoint_files (dir (state_after self w d prefix ids resume before k)) !! (p, i)
              = checkpoint_files d !! (p, i)
              \/ p = prefix /\ 0 < i <= S k /\ i <= length ids
                 /\ i mod checkpoint_interval self = 0
                 /\ (checkpoint_files (dir (state_after self w d prefix ids resume before k))
                       !! (p, i) = Some Garbled
                     \/ checkpoint_files (dir (state_after self w d prefix ids resume before k))
                          !! (p, i)
                        = Some (Readable (all_data
                                  (state_after self w d prefix ids resume before i))))) as IH'.
      { destruct (IH p i) as [H | (H1 & H2 & H3 & H4 & H5)]; [left; exact H|].
        right. repeat split; try assumption; lia. }
      rewrite (state_after_S self w prefix d ids resume before k app Hk).
      destruct (body_dir_multiple (S k) app
                  (state_after self w d prefix ids resume before k)) as [-> | [Hmod ->]];
        [exact IH'|].
      simpl. rewrite <- (state_after_S self w prefix d ids resume before k app Hk).
      destruct (io w (S k) CheckpointFile); simpl; [| |exact IH'].
      * destruct (decide ((prefix, S k) = (p, i))) as [[= <- <-]|Hne].
        -- right. rewrite lookup_insert_eq. repeat split; try lia; auto.
        -- rewrite lookup_insert_ne by assumption. exact IH'.
      * destruct (decide ((prefix, S k) = (p, i))) as [[= <- <-]|Hne].
        -- right. rewrite lookup_insert_eq. repeat split; try lia; auto.
        -- rewrite lookup_insert_ne by assumption. exact IH'.
    + apply lookup_ge_None in Hk.
      rewrite state_after_ge by lia.
      rewrite <- (state_after_ge self w prefix d ids resume before k) by lia.
      destruct (IH p i) as [H | (H1 & H2 & H3 & H4 & H5)]; [left; exact H|].
      right. repeat split; try assumption; lia.
Qed.

End Turns.

(** the checkpoint files of a run.  [collect_bulk] (positive
    checkpoint_interval) leaves every checkpoint file as it found it,
    except files named {output_prefix}_checkpoint_{i}.json with i a
    positive multiple of the interval not above len(app_ids); such a
    file, when the run has touched it, is a torn dump or holds exactly
    the list accumulated after the first i turns, and that list is an
    initial segment of the list the run ends with. *)
Theorem checkpoint_files_of_a_run
  (self : collector) (w : world) (d : directory) (prefix : string)
  (ids : list Z) (resume : bool) (before : stats) (p : string) (i : nat) :
  0 < checkpoint_interval self ->
  let final := final_state self w d prefix ids resume before in
  let snapshot := all_data (state_after self w d prefix ids resume before i) in
  checkpoint_files (dir final) !! (p, i) = checkpoint_files d !! (p, i)
  \/ (p = prefix /\ 0 < i <= length ids /\ i mod checkpoint_interval self = 0
      /\ (checkpoint_files (dir final) !! (p, i) = Some Garbled
          \/ checkpoint_files (dir final) !! (p, i) = Some (Readable snapshot))
      /\ snapshot `prefix_of` all_data final).
Proof.
  intros _. simpl.
  rewrite <- (state_after_ge self w prefix d ids resume before (length ids)) at 1 2 3 by lia.
  destruct (checkpoint_files_after self w prefix d ids resume before (length ids) p i)
    as [H | (H1 & H2 & H3 & H4 & H5)]; [left; exact H|].
  right. repeat split; try assumption; try lia.
  apply state_after_prefix.
Qed.

Lemma checkpoint_files_of_a_run_witness :
  let final := final_state demo_self demo_world empty_directory demo_prefix demo_ids false
                 demo_before in
  let snapshot := all_data (state_after demo_self demo_world empty_directory demo_prefix
                              demo_ids false demo_before 2) in
  checkpoint_files (dir final) !! (demo_prefix, 2) = Some (Readable snapshot)
  /\ snapshot = [demo_record 10; demo_record 20]
  /\ snapshot `prefix_of` all_data final.
Proof.
  destruct (checkpoint_files_of_a_run demo_self demo_world empty_directory demo_prefix
              demo_ids false demo_before demo_prefix 2) as [H | (_ & _ & _ & H & Hpre)].
  - simpl. lia.
  - vm_compute in H. discriminate H.
  - split; [|split; [reflexivity|exact Hpre]].
    destruct H as [H | H]; [vm_compute in H; discriminate H|exact H].
Defined.






End PlayerCountFacts.

(** ** SteamPlayerCountCollector on the files it finds *)

Module CheckpointsFacts.
Import PlayerCount Checkpoints.

Section Loop.
Variables (self : collector) (w : world) (prefix : string).

Lemma checkpoint_keeps_all_data i s : all_data (checkpoint self w prefix i s) = all_data s.
Proof. unfold checkpoint. destruct (_ =? 0); reflexivity. Qed.

Lemma checkpoint_keeps_processed_ids i s :
  processed_ids (checkpoint self w prefix i s) = processed_ids s.
Proof. unfold checkpoint. destruct (_ =? 0); reflexivity. Qed.











(** A state that mirrors its list has every object keyed. *)
Lemma app_ids_of_keys items : app_ids_of items = Some (keys items) \/ app_ids_of items = None.
Proof.
  induction items as [|[r|] items [IH|IH]]; simpl; auto; rewrite IH; auto.
Qed.





End Loop.






(** *** What the resume scan restores *)

Lemma scan_cases d prefix l : forall acc,
  let r := scan d prefix l acc in
  (exists l1 i l2 items ids,
      l = l1 ++ i :: l2
      /\ checkpoint_files d !! (prefix, i) = Some (Parsed items)
      /\ app_ids_of items = Some ids
      /\ (forall j items', j ∈ l1 -> checkpoint_files d !! (prefix, j) = Some (Parsed items') ->
            app_ids_of items' = None)
      /\ r = {| restored_data := items; restored_ids := list_to_set ids; start_index := i |})
  \/ ((forall j items', j ∈ l -> checkpoint_files d !! (prefix, j) = Some (Parsed items') ->
         app_ids_of items' = None)
      /\ restored_ids r = ∅ /\ start_index r = 0
      /\ ((restored_data r = acc
           /\ forall j items', j ∈ l -> checkpoint_files d !! (prefix, j) <> Some (Parsed items'))
          \/ exists l1 i l2 items,
               l = l1 ++ i :: l2
               /\ checkpoint_files d !! (prefix, i) = Some (Parsed items)
               /\ (forall j items', j ∈ l2 ->
                     checkpoint_files d !! (prefix, j) <> Some (Parsed items'))
               /\ restored_data r = items)).
Proof.
  induction l as [|a l IH]; intros acc; simpl.
  - right. split; [intros j items' Hj; inversion Hj|]. split; [reflexivity|].
    split; [reflexivity|]. left. split; [reflexivity|]. intros j items' Hj. inversion Hj.
  - destruct (checkpoint_files d !! (prefix, a)) as [[|items]|] eqn:Ha.
    + destruct (IH acc) as [(l1 & i & l2 & items & ids & -> & Hi & Hids & Hl1 & Hr)
                          |(Hnone & Hset & Hidx & Hdata)].
      * left. exists (a :: l1), i, l2, items, ids. repeat split; try assumption.
        intros j items' [->|Hj]%elem_of_cons; [rewrite Ha; discriminate|apply Hl1, Hj].
      * right. split.
        { intros j items' [->|Hj]%elem_of_cons; [rewrite Ha; discriminate|apply Hnone, Hj]. }
        split; [assumption|]. split; [assumption|].
        destruct Hdata as [[Hacc Hno]|(l1 & i & l2 & items & -> & Hi & Hl2 & Hr)].
        -- left. split; [assumption|].
           intros j items' [->|Hj]%elem_of_cons; [rewrite Ha; discriminate|apply Hno, Hj].
        -- right. exists (a :: l1), i, l2, items. auto.
    + destruct (app_ids_of items) as [ids|] eqn:Hids.
      * left. exists [], a, l, items, ids. repeat split; try assumption.
        intros j items' Hj. inversion Hj.
      * destruct (IH items) as [(l1 & i & l2 & items0 & ids & -> & Hi & Hids0 & Hl1 & Hr)
                              |(Hnone & Hset & Hidx & Hdata)].
        -- left. exists (a :: l1), i, l2, items0, ids. repeat split; try assumption.
           intros j items' [->|Hj]%elem_of_cons; [|apply Hl1, Hj].
           rewrite Ha. intros [= <-]. assumption.
        -- right. split.
           { intros j items' [->|Hj]%elem_of_cons; [|apply Hnone, Hj].
             rewrite Ha. intros [= <-]. assumption. }
           split; [assumption|]. split; [assumption|]. right.
           destruct Hdata as [[Hacc Hno]|(l1 & i & l2 & items0 & -> & Hi & Hl2 & Hr)].
           ++ exists [], a, l, items. auto.
           ++ exists (a :: l1), i, l2, items0. auto.
    + destruct (IH acc) as [(l1 & i & l2 & items & ids & -> & Hi & Hids & Hl1 & Hr)
                          |(Hnone & Hset & Hidx & Hdata)].
      * left. exists (a :: l1), i, l2, items, ids. repeat split; try assumption.
        intros j items' [->|Hj]%elem_of_cons; [rewrite Ha; discriminate|apply Hl1, Hj].
      * right. split.
        { intros j items' [->|Hj]%elem_of_cons; [rewrite Ha; discriminate|apply Hnone, Hj]. }
        split; [assumption|]. split; [assumption|].
        destruct Hdata as [[Hacc Hno]|(l1 & i & l2 & items & -> & Hi & Hl2 & Hr)].
        -- left. split; [assumption|].
           intros j items' [->|Hj]%elem_of_cons; [rewrite Ha; discriminate|apply Hno, Hj].
        -- right. exists (a :: l1), i, l2, items. auto.
Qed.

(** The positions of [range_down] come in descending order. *)
Lemma range_down_split n c l1 i l2 :
  0 < c -> range_down n c = l1 ++ i :: l2 ->
  (forall j, j ∈ l1 -> i < j) /\ (forall j, j ∈ l2 -> j < i).
Proof.
  intros Hc Hl. unfold range_down in Hl. split.
  - exact (PlayerCountFacts.range_down_from_descending c Hc n n l1 i l2 Hl).
  - intros j Hj. apply list_elem_of_split in Hj as (l3 & l4 & ->).
    apply (PlayerCountFacts.range_down_from_descending c Hc n n (l1 ++ i :: l3) j l4).
    + rewrite Hl, <- app_assoc. reflexivity.
    + apply elem_of_app. right. left.
Qed.

(** What resume=True starts from, each checkpoint file being text that
    json.load rejects or an array ([content]).  The candidates are the
    positions len(app_ids), len(app_ids) - checkpoint_interval, ...
    above 0.
    Either some candidate has a file that json.load accepts and whose
    objects all carry 'app_id': then the highest such candidate gives
    the initial list, the initial processed-ID set and start_index.  Or
    none has: then the processed-ID set is empty and start_index is 0,
    as in a run without checkpoint, but the initial list is the array of
    the lowest candidate whose file json.load accepts, if there is one
    (the scan assigned it before reading the keys and nothing resets
    it), and empty only if no candidate has such a file.  Files at other
    positions are not looked at. *)
Theorem resume_scan_restores
  (self : collector) (d : directory) (prefix : string) (ids : list Z) :
  0 < checkpoint_interval self ->
  let r := restore self d prefix ids true in
  let candidate i :=
    0 < i <= length ids /\ exists j, length ids = i + j * checkpoint_interval self in
  let parses i items := checkpoint_files d !! (prefix, i) = Some (Parsed items) in
  (exists i items app_ids,
      candidate i /\ parses i items /\ app_ids_of items = Some app_ids
      /\ (forall i' items', i < i' -> candidate i' -> parses i' items' ->
            app_ids_of items' = None)
      /\ r = {| restored_data := items; restored_ids := list_to_set app_ids;
                start_index := i |})
  \/ ((forall i items, candidate i -> parses i items -> app_ids_of items = None)
      /\ restored_ids r = ∅ /\ start_index r = 0
      /\ ((restored_data r = [] /\ forall i items, candidate i -> ~ parses i items)
          \/ exists i items,
               candidate i /\ parses i items
               /\ (forall i' items', i' < i -> candidate i' -> ~ parses i' items')
               /\ restored_data r = items)).
Proof.
  intros Hc. simpl. unfold restore.
  set (l := range_down (length ids) (checkpoint_interval self)).
  assert (forall i, i ∈ l <->
            0 < i <= length ids /\ exists j, length ids = i + j * checkpoint_interval self)
    as Hl by (intros i; apply PlayerCountFacts.range_down_spec, Hc).
  destruct (scan_cases d prefix l [])
    as [(l1 & i & l2 & items & app_ids & Hsplit & Hi & Hids & Hl1 & Hr)
       |(Hnone & Hset & Hidx & Hdata)].
  - left. exists i, items, app_ids.
    destruct (range_down_split _ _ _ _ _ Hc Hsplit) as [Habove Hbelow].
    split; [apply Hl; rewrite Hsplit; apply elem_of_app; right; left|].
    split; [exact Hi|]. split; [exact Hids|]. split; [|exact Hr].
    intros i' items' Hlt Hcand Hparse. apply Hl in Hcand. rewrite Hsplit in Hcand.
    apply elem_of_app in Hcand as [Hin|Hin]; [exact (Hl1 _ _ Hin Hparse)|].
    apply elem_of_cons in Hin as [->|Hin]; [lia|]. apply Hbelow in Hin. lia.
  - right. split; [intros i items Hcand; apply Hnone, Hl, Hcand|].
    split; [exact Hset|]. split; [exact Hidx|].
    destruct Hdata as [[Hacc Hno]|(l1 & i & l2 & items & Hsplit & Hi & Hl2 & Hr)].
    + left. split; [exact Hacc|]. intros i items Hcand. apply Hno, Hl, Hcand.
    + right. exists i, items.
      destruct (range_down_split _ _ _ _ _ Hc Hsplit) as [Habove Hbelow].
      split; [apply Hl; rewrite Hsplit; apply elem_of_app; right; left|].
      split; [exact Hi|]. split; [|exact Hr].
      intros i' items' Hlt Hcand. apply Hl in Hcand. rewrite Hsplit in Hcand.
      apply elem_of_app in Hcand as [Hin|Hin]; [apply Habove in Hin; lia|].
      apply elem_of_cons in Hin as [->|Hin]; [lia|]. apply Hl2, Hin.
Qed.

(** The scan in the directory of the killed run, and its outcome there
    and in the directory whose only checkpoint holds an object without
    'app_id': that array is restored, with an empty processed-ID set and
    start_index 0. *)
Lemma resume_scan_restores_witness :
  (let r := restore demo_self1 killed_directory demo_prefix demo_ids true in
   let candidate i :=
     0 < i <= length demo_ids
     /\ exists j, length demo_ids = i + j * checkpoint_interval demo_self1 in
   let parses i items :=
     checkpoint_files killed_directory !! (demo_prefix, i) = Some (Parsed items) in
   (exists i items app_ids,
       candidate i /\ parses i items /\ app_ids_of items = Some app_ids
       /\ (forall i' items', i < i' -> candidate i' -> parses i' items' ->
             app_ids_of items' = None)
       /\ r = {| restored_data := items; restored_ids := list_to_set app_ids;
                 start_index := i |})
   \/ ((forall i items, candidate i -> parses i items -> app_ids_of items = None)
       /\ restored_ids r = ∅ /\ start_index r = 0
       /\ ((restored_data r = [] /\ forall i items, candidate i -> ~ parses i items)
           \/ exists i items,
                candidate i /\ parses i items
                /\ (forall i' items', i' < i -> candidate i' -> ~ parses i' items')
                /\ restored_data r = items)))
  /\ restore demo_self1 killed_directory demo_prefix demo_ids true
     = {| restored_data := [Keyed (demo_record 10); Keyed (demo_record 20)];
          restored_ids := list_to_set [10; 20]%Z; start_index := 2 |}
  /\ restore demo_self keyless_directory demo_prefix demo_ids true
     = {| restored_data := [Keyed (demo_record 10); Keyless];
          restored_ids := ∅; start_index := 0 |}.
Proof.
  split; [|split; vm_compute; reflexivity].
  apply (resume_scan_restores demo_self1 killed_directory demo_prefix demo_ids).
  simpl. lia.
Defined.

(** *** What the call ends with *)

Lemma loop_accumulates self w prefix ids : forall i s,
  NoDup ids ->
  all_data (loop self w prefix i ids s)
  = all_data s
    ++ map Keyed (fetched w (filter (fun turn : nat * Z => turn.2 ∉ processed_ids s)
                               (enumerate ids i))).
Proof.
  induction ids as [|app rest IH]; intros i s Hdup; simpl.
  - rewrite app_nil_r. reflexivity.
  - apply NoDup_cons in Hdup as [Hnot Hdup].
    rewrite (IH (S i) _ Hdup). rewrite PlayerCountFacts.enumerate_cons, filter_cons. simpl (_.2).
    unfold body.
    destruct (decide (app ∈ processed_ids s)) as [Hin|Hnew].
    + destruct (decide (app ∉ processed_ids s)); [contradiction|reflexivity].
    + destruct (decide (app ∉ processed_ids s)); [|contradiction].
      rewrite checkpoint_keeps_all_data, checkpoint_keeps_processed_ids.
      unfold fetch_one.
      set (turns := filter (fun turn : nat * Z => turn.2 ∉ processed_ids s)
                      (enumerate rest (S i))).
      assert (fetched w ((i, app) :: turns)
              = match get_player_count w i app with
                | Some r => r :: fetched w turns
                | None => fetched w turns
                end) as -> by reflexivity.
      destruct (get_player_count w i app) as [r|]; simpl.
      * rewrite PlayerCountFacts.filter_turns_union by assumption. fold turns.
        rewrite <- app_assoc. reflexivity.
      * reflexivity.
Qed.

(** What the loop of [collect_bulk] ends with (positive
    checkpoint_interval, identifiers without repetition, checkpoint
    files and replies as [content] and [reply] have them): the list
    restored on entry, followed by the records of those identifiers of
    app_ids that are not in the processed-ID set restored on entry and
    whose request succeeds, in input order, each requested at its own
    position.  start_index plays no part: identifiers are skipped by
    membership only.  Restored objects stay even when their identifier
    is not in app_ids; and after a scan that kept an array without
    restoring its identifiers, every identifier of app_ids is requested
    again, those of the kept records too. *)
Theorem collect_bulk_accumulates
  (self : collector) (w : world) (d : directory) (prefix : string)
  (ids : list Z) (resume : bool) (before : stats) :
  0 < checkpoint_interval self ->
  NoDup ids ->
  let found := restore self d prefix ids resume in
  let turns := attempts (restored_ids found) ids in
  all_data (final_state self w d prefix ids resume before)
  = restored_data found ++ map Keyed (fetched w turns)
  /\ (forall turn, turn ∈ turns <->
        ids !! (turn.1 - 1) = Some turn.2 /\ 0 < turn.1 /\ turn.2 ∉ restored_ids found).
Proof.
  intros _ Hdup. simpl. split.
  - exact (loop_accumulates self w prefix ids 1 (start self d prefix ids resume before) Hdup).
  - intros [i a]. unfold attempts. rewrite list_elem_of_filter. simpl.
    unfold enumerate. rewrite elem_of_lookup_zip_with. split.
    + intros (Hnot & k & i' & a' & [= <- <-] & Hi & Ha).
      apply lookup_seq in Hi as [-> Hk].
      replace (1 + k - 1) with k by lia. auto with lia.
    + intros (Ha & Hi & Hnot). split; [assumption|].
      exists (i - 1), i, a. split; [reflexivity|]. split; [|assumption].
      apply lookup_seq. split; [lia|]. apply lookup_lt_Some in Ha. assumption.
Qed.

(** The run of [demo_resampled] resumed in the directory of the killed
    run of [demo_ids] (interval 1 finds the checkpoint of position 2):
    the two restored records stay, the two identifiers of the new list
    follow.  The run of [demo_ids] resumed in the directory whose
    checkpoint holds an object without 'app_id': the kept array stays
    and all three identifiers are requested, 10 for the second time. *)
Lemma collect_bulk_accumulates_witness :
  all_data (final_state demo_self1 demo_world killed_directory demo_prefix demo_resampled true
              demo_before)
  = [Keyed (demo_record 10); Keyed (demo_record 20); Keyed (demo_record 30);
     Keyed (demo_record 40)]
  /\ all_data (final_state demo_self demo_world keyless_directory demo_prefix demo_ids true
                 demo_before)
     = [Keyed (demo_record 10); Keyless; Keyed (demo_record 10); Keyed (demo_record 20);
        Keyed (demo_record 30)].
Proof.
  assert (NoDup demo_resampled) as Hdup by (apply (bool_decide_unpack _); vm_compute; exact I).
  assert (NoDup demo_ids) as Hdup' by (apply (bool_decide_unpack _); vm_compute; exact I).
  split.
  - destruct (collect_bulk_accumulates demo_self1 demo_world killed_directory demo_prefix
                demo_resampled true demo_before ltac:(simpl; lia) Hdup) as [H _].
    etransitivity; [exact H|]. vm_compute. reflexivity.
  - destruct (collect_bulk_accumulates demo_self demo_world keyless_directory demo_prefix
                demo_ids true demo_before ltac:(simpl; lia) Hdup') as [H _].
    etransitivity; [exact H|]. vm_compute. reflexivity.
Defined.

(** *** An array that loads and lacks a key

    The case the invariant is not stated for.  The checkpoint of position
    3 loads as an array whose second object has no 'app_id'.  The scan
    has assigned the array when the key is missed; the handler logs the
    warning and resets nothing.  The run enters its loop with two
    objects in all_data, stats['successful'] = 2 and an empty
    processed-ID set, requests 10 again and ends with two records of
    10. *)
Lemma half_loaded_array_is_kept :
  let s := state_after demo_self demo_world keyless_directory demo_prefix demo_ids true
             demo_before 0 in
  let s' := final_state demo_self demo_world keyless_directory demo_prefix demo_ids true
              demo_before in
  all_data s = [Keyed (demo_record 10); Keyless]
  /\ processed_ids s = ∅
  /\ successful (run_stats s) = 2
  /\ keys (all_data s') = [10; 10; 20; 30]%Z
  /\ ~ NoDup (keys (all_data s')).
Proof.
  assert (keys (all_data (final_state demo_self demo_world keyless_directory demo_prefix
                            demo_ids true demo_before)) = [10; 10; 20; 30]%Z) as H
    by (vm_compute; reflexivity).
  simpl. rewrite H.
  split; [vm_compute; reflexivity|]. split; [vm_compute; reflexivity|].
  split; [vm_compute; reflexivity|]. split; [reflexivity|].
  intros Hdup. apply NoDup_cons in Hdup as [Hnot _]. apply Hnot. left.
Qed.

(** *** The two views of the loop agree *)

Lemma app_ids_of_records data : app_ids_of (map Keyed data) = Some (map app_id data).
Proof. induction data as [|r data IH]; simpl; [reflexivity|]. rewrite IH. reflexivity. Qed.

Lemma scan_as_found d prefix l :
  scan (as_found d) prefix l []
  = match PlayerCount.first_readable d prefix l with
    | Some (i, data) =>
        {| restored_data := map Keyed data; restored_ids := list_to_set (map app_id data);
           start_index := i |}
    | None => {| restored_data := []; restored_ids := ∅; start_index := 0 |}
    end.
Proof.
  induction l as [|i l IH]; simpl; [reflexivity|].
  rewrite lookup_fmap.
  destruct (PlayerCount.checkpoint_files d !! (prefix, i)) as [[data|]|]; simpl;
    [|exact IH|exact IH].
  rewrite app_ids_of_records. reflexivity.
Qed.

Lemma start_as_found self d prefix ids resume before :
  start self (as_found d) prefix ids resume before
  = as_run (PlayerCount.start self d prefix ids resume before).
Proof.
  unfold start, PlayerCount.start, restore, PlayerCount.find_checkpoint, as_run.
  destruct resume; [|reflexivity].
  rewrite scan_as_found.
  destruct (PlayerCount.first_readable d prefix _) as [[i data]|]; simpl;
    [rewrite length_map|]; reflexivity.
Qed.

Lemma body_as_run self w prefix i app s :
  body self w prefix i app (as_run s) = as_run (PlayerCount.body self w prefix i app s).
Proof.
  unfold body, PlayerCount.body. simpl.
  destruct (decide (app ∈ PlayerCount.processed_ids s)); [reflexivity|].
  unfold fetch_one, PlayerCount.fetch_one, checkpoint, PlayerCount.checkpoint.
  destruct (get_player_count w i app) as [r|]; simpl;
    destruct (i mod checkpoint_interval self =? 0); unfold as_run; simpl;
    rewrite ?map_app; try reflexivity;
    f_equal; unfold as_found, _save_processed_ids, _save_checkpoint; simpl; f_equal;
    unfold write_file, dump; destruct (io w i CheckpointFile);
    rewrite ?fmap_insert; simpl; rewrite ?map_app; reflexivity.
Qed.

Lemma loop_as_run self w prefix ids : forall i s,
  loop self w prefix i ids (as_run s) = as_run (PlayerCount.loop self w prefix i ids s).
Proof.
  induction ids as [|app rest IH]; intros i s; simpl; [reflexivity|].
  rewrite body_as_run. apply IH.
Qed.

(** On a directory in which every file that json.load accepts is an
    array of records, the run followed here is the run of
    [PlayerCount], state by state. *)
Lemma state_after_as_found self w d prefix ids resume before k :
  state_after self w (as_found d) prefix ids resume before k
  = as_run (PlayerCount.state_after self w d prefix ids resume before k).
Proof.
  unfold state_after, PlayerCount.state_after. rewrite start_as_found. apply loop_as_run.
Qed.

End CheckpointsFacts.

(** ** SteamRandomCollector *)

Module MetadataFacts.
Import Metadata.

Lemma get_game_details_type w app s g :
  fst (get_game_details w app s) = Some g ->
  reports_game (store w (tick s) app) = bool_decide (type g = Some "game"%string)
  /\ app_id g = app.
Proof.
  unfold get_game_details, bind, send, ret. simpl.
  destruct (store w (tick s) app) as [|code [|] [d|]]; simpl; try discriminate.
  destruct (code =? 200)%Z; [|discriminate].
  intros [= <-]. simpl. split; reflexivity.
Qed.

Lemma get_game_details_None w app s :
  fst (get_game_details w app s) = None -> reports_game (store w (tick s) app) = false.
Proof.
  unfold get_game_details, bind, send, ret. simpl.
  destruct (store w (tick s) app) as [|code [|] [d|]]; simpl; try reflexivity.
  destruct (code =? 200)%Z; [discriminate|reflexivity].
Qed.

Lemma get_game_details_session w app s :
  snd (get_game_details w app s) = after_request (AppDetails app) s.
Proof. reflexivity. Qed.

Lemma metadata_collect_single_game_rejects w app s :
  reports_game (store w (tick s) app) = false ->
  collect_single_game w app s = (None, after_request (AppDetails app) s).
Proof.
  intros Hno. unfold collect_single_game, bind.
  pose proof (get_game_details_type w app s) as Htype.
  pose proof (get_game_details_session w app s) as Hs.
  destruct (get_game_details w app s) as [[g|] s1]; simpl in *; subst s1; [|reflexivity].
  destruct (Htype g eq_refl) as [Heq _]. rewrite Hno in Heq.
  destruct (decide (type g = Some "game"%string)) as [Hg|Hg]; [|reflexivity].
  rewrite bool_decide_eq_true_2 in Heq by assumption. discriminate.
Qed.

Lemma metadata_collect_single_game_accepts w app s :
  reports_game (store w (tick s) app) = true ->
  exists g s', collect_single_game w app s = (Some g, s')
    /\ is_game_record g /\ app_id (info g) = app
    /\ sent s' = sent s ++ [AppDetails app; CurrentPlayers app; AchievementPercentages app]
    /\ successful (counters s') = successful (counters s)
    /\ failed (counters s') = failed (counters s).
Proof.
  intros Hyes. unfold collect_single_game, bind.
  pose proof (get_game_details_type w app s) as Htype.
  pose proof (get_game_details_None w app s) as Hnone.
  pose proof (get_game_details_session w app s) as Hs.
  destruct (get_game_details w app s) as [[g|] s1]; simpl in *; subst s1.
  - destruct (Htype g eq_refl) as [Heq Hid]. rewrite Hyes in Heq.
    destruct (decide (type g = Some "game"%string)) as [Hg|Hg].
    + unfold get_player_count, get_achievement_count, bind, send, ret, when, update_stats,
        modify, gets. simpl.
      destruct (positive _), (truthy _); simpl;
        eexists _, _; (split; [reflexivity|]); simpl;
        rewrite <- !app_assoc; simpl; auto.
    + rewrite bool_decide_eq_false_2 in Heq by assumption. discriminate.
  - rewrite Hnone in Hyes by reflexivity. discriminate.
Qed.

Lemma metadata_body_accepts self w prefix i app acc s :
  reports_game (store w (tick s) app) = true ->
  exists g, fst (body self w prefix i app acc s) = acc ++ [g]
    /\ is_game_record g /\ app_id (info g) = app
    /\ successful (counters (snd (body self w prefix i app acc s)))
       = S (successful (counters s))
    /\ failed (counters (snd (body self w prefix i app acc s))) = failed (counters s).
Proof.
  intros Hyes.
  destruct (metadata_collect_single_game_accepts w app s Hyes)
    as (g & s' & Hrun & Hg & Hid & _ & Hsucc & Hfail).
  exists g. unfold body, bind. rewrite Hrun.
  unfold update_stats, modify, ret, when, _save_checkpoint. simpl.
  destruct (i mod checkpoint_interval self =? 0); simpl; rewrite Hsucc, Hfail; auto.
Qed.

Lemma metadata_body_rejects self w prefix i app acc s :
  reports_game (store w (tick s) app) = false ->
  fst (body self w prefix i app acc s) = acc
  /\ failed (counters (snd (body self w prefix i app acc s))) = S (failed (counters s))
  /\ successful (counters (snd (body self w prefix i app acc s))) = successful (counters s)
  /\ sent (snd (body self w prefix i app acc s)) = sent s ++ [AppDetails app].
Proof.
  intros Hno. unfold body, bind. rewrite (metadata_collect_single_game_rejects w app s Hno).
  unfold update_stats, modify, ret, when, _save_checkpoint. simpl.
  destruct (i mod checkpoint_interval self =? 0); simpl; auto.
Qed.

Lemma metadata_loop_games self w prefix ids : forall i acc s,
  Forall is_game_record acc ->
  Forall is_game_record (fst (loop self w prefix i ids acc s)).
Proof.
  induction ids as [|app rest IH]; intros i acc s Hacc; simpl; [assumption|].
  unfold bind.
  destruct (body self w prefix i app acc s) as [acc' s'] eqn:Hbody.
  apply IH.
  destruct (reports_game (store w (tick s) app)) eqn:Hrep.
  - destruct (metadata_body_accepts self w prefix i app acc s Hrep) as (g & Hfst & Hg & _).
    rewrite Hbody in Hfst. simpl in Hfst. subst acc'.
    apply Forall_app. split; [assumption|]. apply Forall_singleton. assumption.
  - destruct (metadata_body_rejects self w prefix i app acc s Hrep) as (Hfst & _).
    rewrite Hbody in Hfst. simpl in Hfst. subst acc'. assumption.
Qed.

(** Every turn counts its item once, as successful or as failed, and the
    successful ones are the records gathered. *)
Lemma metadata_loop_counts self w prefix ids : forall i acc s,
  let r := loop self w prefix i ids acc s in
  successful (counters (snd r)) + length acc = successful (counters s) + length (fst r)
  /\ successful (counters (snd r)) + failed (counters (snd r))
     = successful (counters s) + failed (counters s) + length ids.
Proof.
  induction ids as [|app rest IH]; intros i acc s; simpl; [lia|].
  unfold bind.
  destruct (body self w prefix i app acc s) as [acc' s'] eqn:Hbody.
  specialize (IH (S i) acc' s'). simpl in IH. destruct IH as [IH1 IH2].
  destruct (reports_game (store w (tick s) app)) eqn:Hrep.
  - destruct (metadata_body_accepts self w prefix i app acc s Hrep) as (g & Hfst & _ & _ & Hs & Hf).
    rewrite Hbody in Hfst, Hs, Hf. simpl in Hfst, Hs, Hf. subst acc'.
    rewrite length_app in IH1. simpl in IH1. lia.
  - destruct (metadata_body_rejects self w prefix i app acc s Hrep) as (Hfst & Hf & Hs & _).
    rewrite Hbody in Hfst, Hs, Hf. simpl in Hfst, Hs, Hf. subst acc'. lia.
Qed.

End MetadataFacts.

(** ** SteamDataCollector *)

Module ReviewsFacts.
Import Reviews.

Lemma is_game_reports w app s :
  is_game w app s = (Metadata.reports_game (store w (tick s) app), after_request (AppDetails app) s).
Proof. reflexivity. Qed.

Lemma reviews_collect_single_game_rejects w app s :
  Metadata.reports_game (store w (tick s) app) = false ->
  collect_single_game w app s = (None, after_request (AppDetails app) s).
Proof.
  intros Hno. unfold collect_single_game, bind. rewrite is_game_reports, Hno. reflexivity.
Qed.

Lemma reviews_collect_single_game_accepts w app s :
  Metadata.reports_game (store w (tick s) app) = true ->
  exists g s', collect_single_game w app s = (Some g, s')
    /\ app_id g = app
    /\ sent s' = sent s ++ [AppDetails app; CurrentPlayers app; AppReviews app].
Proof.
  intros Hyes. unfold collect_single_game, bind. rewrite is_game_reports, Hyes.
  unfold get_player_count, get_review_count, bind, send, gets, ret. simpl.
  eexists _, _. split; [reflexivity|]. simpl. rewrite <- !app_assoc. auto.
Qed.

Lemma reviews_body_accepts w app acc s :
  Metadata.reports_game (store w (tick s) app) = true ->
  exists g, fst (body w app acc s)
            = {| all_data := all_data acc ++ [g]; successful := S (successful acc);
                 failed := failed acc |}
    /\ app_id g = app.
Proof.
  intros Hyes.
  destruct (reviews_collect_single_game_accepts w app s Hyes) as (g & s' & Hrun & Hid & _).
  exists g. unfold body, bind. rewrite Hrun. simpl. auto.
Qed.

Lemma reviews_body_rejects w app acc s :
  Metadata.reports_game (store w (tick s) app) = false ->
  body w app acc s
  = ({| all_data := all_data acc; successful := successful acc; failed := S (failed acc) |},
     after_request (AppDetails app) s).
Proof.
  intros Hno. unfold body, bind. rewrite (reviews_collect_single_game_rejects w app s Hno).
  reflexivity.
Qed.

Lemma reviews_loop_games w ids : forall acc s,
  Forall (reported_game w) (all_data acc) ->
  Forall (reported_game w) (all_data (fst (loop w ids acc s))).
Proof.
  induction ids as [|app rest IH]; intros acc s Hacc; simpl; [assumption|].
  unfold bind. destruct (body w app acc s) as [acc' s'] eqn:Hbody.
  apply IH.
  destruct (Metadata.reports_game (store w (tick s) app)) eqn:Hrep.
  - destruct (reviews_body_accepts w app acc s Hrep) as (g & Hfst & Hid).
    rewrite Hbody in Hfst. simpl in Hfst. subst acc'. simpl.
    apply Forall_app. split; [assumption|]. apply Forall_singleton.
    exists (tick s). rewrite Hid. assumption.
  - rewrite (reviews_body_rejects w app acc s Hrep) in Hbody. injection Hbody as <- <-. assumption.
Qed.

Lemma reviews_loop_counts w ids : forall acc s,
  let r := fst (loop w ids acc s) in
  successful r + length (all_data acc) = successful acc + length (all_data r)
  /\ successful r + failed r = successful acc + failed acc + length ids.
Proof.
  induction ids as [|app rest IH]; intros acc s; simpl; [lia|].
  unfold bind. destruct (body w app acc s) as [acc' s'] eqn:Hbody.
  specialize (IH acc' s'). simpl in IH. destruct IH as [IH1 IH2].
  destruct (Metadata.reports_game (store w (tick s) app)) eqn:Hrep.
  - destruct (reviews_body_accepts w app acc s Hrep) as (g & Hfst & Hid).
    rewrite Hbody in Hfst. simpl in Hfst. subst acc'. simpl in *.
    rewrite length_app in IH1. simpl in IH1. lia.
  - rewrite (reviews_body_rejects w app acc s Hrep) in Hbody. injection Hbody as <- <-.
    simpl in *. lia.
Qed.

End ReviewsFacts.

(** ** The collectors side by side *)

Module CollectorFacts.

(** C8: both metadata collectors keep games only.  In
    SteamRandomCollector and in SteamDataCollector alike,
    [collect_single_game] gives a record exactly when the appdetails
    answer reports type 'game' ([reports_game]: status 200, success, data
    present, type 'game'); otherwise it gives None after that one request
    and nothing else was sent, and the loop counts the identifier as
    failed and appends nothing.  So every record [collect_bulk] returns
    has type 'game' (SteamRandomCollector, whose records carry the type;
    its checkpoint interval is taken positive, and its call raises on
    the empty list only) or an identifier that an appdetails answer
    reported as a game (SteamDataCollector, whose records do not carry
    it). *)
Theorem game_only_filter :
  (forall (w : Metadata.world) (app : Z) (s : Metadata.session),
     if Metadata.reports_game (Metadata.store w (Metadata.tick s) app)
     then exists g s',
            Metadata.collect_single_game w app s = (Some g, s')
            /\ Metadata.type (Metadata.info g) = Some "game"%string
     else Metadata.collect_single_game w app s
          = (None, Metadata.after_request (AppDetails app) s))
  /\ (forall self (w : Metadata.world) prefix i app acc (s : Metadata.session),
        0 < Metadata.checkpoint_interval self ->
        let r := Metadata.body self w prefix i app acc s in
        if Metadata.reports_game (Metadata.store w (Metadata.tick s) app)
        then (exists g, fst r = acc ++ [g]
                        /\ Metadata.type (Metadata.info g) = Some "game"%string)
             /\ Metadata.failed (Metadata.counters (snd r))
                = Metadata.failed (Metadata.counters s)
        else fst r = acc
             /\ Metadata.failed (Metadata.counters (snd r))
                = S (Metadata.failed (Metadata.counters s))
             /\ Metadata.sent (snd r) = Metadata.sent s ++ [AppDetails app])
  /\ (forall self (w : Metadata.world) prefix ids (s : Metadata.session),
        0 < Metadata.checkpoint_interval self ->
        match fst (Metadata.collect_bulk self w prefix ids s) with
        | Returns data =>
            Forall (fun g => Metadata.type (Metadata.info g) = Some "game"%string) data
        | Raises _ => ids = []
        end)
  /\ (forall (w : Reviews.world) (app : Z) (s : Reviews.session),
        if Metadata.reports_game (Reviews.store w (Reviews.tick s) app)
        then exists g s',
               Reviews.collect_single_game w app s = (Some g, s')
               /\ Reviews.app_id g = app
        else Reviews.collect_single_game w app s
             = (None, Reviews.after_request (AppDetails app) s))
  /\ (forall (w : Reviews.world) app acc (s : Reviews.session),
        let r := fst (Reviews.body w app acc s) in
        if Metadata.reports_game (Reviews.store w (Reviews.tick s) app)
        then (exists g, Reviews.all_data r = Reviews.all_data acc ++ [g]
                        /\ Reviews.app_id g = app)
             /\ Reviews.failed r = Reviews.failed acc
        else Reviews.all_data r = Reviews.all_data acc
             /\ Reviews.failed r = S (Reviews.failed acc)
             /\ Reviews.sent (snd (Reviews.body w app acc s))
                = Reviews.sent s ++ [AppDetails app])
  /\ (forall (w : Reviews.world) ids (s : Reviews.session),
        Forall (fun g => exists t,
                  Metadata.reports_game (Reviews.store w t (Reviews.app_id g)) = true)
               (fst (Reviews.collect_bulk w ids s))).
Proof.
  split; [|split; [|split; [|split; [|split]]]].
  - intros w app s.
    destruct (Metadata.reports_game _) eqn:Hrep.
    + destruct (MetadataFacts.metadata_collect_single_game_accepts w app s Hrep)
        as (g & s' & Hrun & Hg & _). eauto.
    + apply MetadataFacts.metadata_collect_single_game_rejects, Hrep.
  - intros self w prefix i app acc s _. simpl.
    destruct (Metadata.reports_game _) eqn:Hrep.
    + destruct (MetadataFacts.metadata_body_accepts self w prefix i app acc s Hrep)
        as (g & Hfst & Hg & _ & _ & Hf). eauto.
    + destruct (MetadataFacts.metadata_body_rejects self w prefix i app acc s Hrep)
        as (Hfst & Hf & _ & Hsent). auto.
  - intros self w prefix ids s _.
    unfold Metadata.collect_bulk, bind, Metadata.update_stats, modify, ret. simpl.
    destruct (Metadata.loop _ _ _ _ _ _ _) as [data s'] eqn:Hloop. simpl.
    destruct ids as [|app rest]; [reflexivity|]. simpl Nat.eqb. cbv iota.
    change data with (fst (data, s')). rewrite <- Hloop.
    apply MetadataFacts.metadata_loop_games. constructor.
  - intros w app s.
    destruct (Metadata.reports_game _) eqn:Hrep.
    + destruct (ReviewsFacts.reviews_collect_single_game_accepts w app s Hrep)
        as (g & s' & Hrun & Hid & _). eauto.
    + apply ReviewsFacts.reviews_collect_single_game_rejects, Hrep.
  - intros w app acc s. simpl.
    destruct (Metadata.reports_game _) eqn:Hrep.
    + destruct (ReviewsFacts.reviews_body_accepts w app acc s Hrep) as (g & -> & Hid). simpl. eauto.
    + rewrite (ReviewsFacts.reviews_body_rejects w app acc s Hrep). simpl. auto.
  - intros w ids s. unfold Reviews.collect_bulk, Reviews.collect_bulk_tally, bind.
    pose proof (ReviewsFacts.reviews_loop_games w ids
                  {| Reviews.all_data := []; Reviews.successful := 0; Reviews.failed := 0 |} s)
      as H.
    destruct (Reviews.loop _ _ _ _) as [acc s']. simpl in *. apply H. constructor.
Qed.

Lemma reports_game_true (r : Metadata.details_reply) :
  Metadata.reports_game r = true <->
  exists d, r = Metadata.DetailsHttp 200 true (Some d)
            /\ Metadata.sd_type d = Some "game"%string.
Proof.
  destruct r as [|code [|] [d|]]; simpl; try (split; [discriminate|intros (? & [=] & _)]).
  rewrite andb_true_iff, Z.eqb_eq, bool_decide_eq_true. split.
  - intros [-> Hd]. eauto.
  - intros (d' & [= -> ->] & Hd). auto.
Qed.

(** C6: with a seed given, [random_sample_app_ids] returns the same
    sample (and leaves the same generator state) whatever the generator
    state was before the call: two calls with the same seed on the same
    universe and the same size agree, for any generator. *)
Theorem seeded_sample_is_reproducible
  (G : Type) (random : PlayerCount.random_module G) (g1 g2 : G)
  (all_app_ids : list Z) (sample_size : Z) (s : Z) :
  PlayerCount.random_sample_app_ids random g1 all_app_ids sample_size (Some s)
  = PlayerCount.random_sample_app_ids random g2 all_app_ids sample_size (Some s).
Proof. reflexivity. Qed.

(** Without a seed the draw is read off the hidden state: two calls on
    the same universe can differ. *)
Lemma unseeded_sample_depends_on_state :
  fst (PlayerCount.random_sample_app_ids PlayerCount.toy_random 0 [1; 2; 3]%Z 2 None)
  <> fst (PlayerCount.random_sample_app_ids PlayerCount.toy_random 1 [1; 2; 3]%Z 2 None).
Proof. vm_compute. discriminate. Qed.

Lemma seeded_sample_toy :
  fst (PlayerCount.random_sample_app_ids PlayerCount.toy_random 7 [1; 2; 3]%Z 2 (Some 1%Z))
  = Returns [2; 3]%Z.
Proof. vm_compute. reflexivity. Qed.

(** On an empty universe the sampler does not return an empty list: the
    sample is empty, and min() of it in the log line raises ValueError
    (for any generator whose draw from an empty population is empty). *)
Lemma empty_sample_raises (G : Type) (random : PlayerCount.random_module G) (g : G)
  (sample_size : Z) (seed_arg : option Z) :
  (forall g' k, fst (PlayerCount.sample random g' [] k) = []) ->
  fst (PlayerCount.random_sample_app_ids random g [] sample_size seed_arg) = Raises ValueError.
Proof.
  intros Hempty. unfold PlayerCount.random_sample_app_ids. simpl.
  destruct (Z.ltb _ _); [reflexivity|].
  match goal with |- context [PlayerCount.sample random ?a ?b ?c] =>
    specialize (Hempty a c); destruct (PlayerCount.sample random a b c) as [l g'] end.
  simpl in Hempty. subst l. reflexivity.
Qed.

Lemma empty_sample_raises_witness :
  fst (PlayerCount.random_sample_app_ids PlayerCount.toy_random 0 [] 5 (Some 42%Z))
  = Raises ValueError.
Proof.
  apply (empty_sample_raises nat PlayerCount.toy_random 0 5%Z (Some 42%Z)).
  intros g' k. simpl. unfold rotate. rewrite drop_nil, take_nil. apply take_nil.
Defined.

Lemma join_described (l : list (option string)) :
  Forall is_Some l -> exists text, Metadata.join l = Returns text.
Proof.
  induction 1 as [|x l [d ->] _ [tail IH]]; simpl; [eauto|].
  rewrite IH. eauto.
Qed.

Lemma flatten_all_described (data : list Metadata.game_record) :
  Forall Metadata.described data ->
  exists rows, Metadata.flatten_all data = Returns rows /\ length rows = length data.
Proof.
  induction 1 as [|g data [Hc Hg] _ (rows & IH & Hlen)]; simpl; [eauto|].
  unfold Metadata.flatten.
  destruct (join_described _ Hc) as [c ->], (join_described _ Hg) as [ge ->].
  rewrite IH. eexists. split; [reflexivity|]. simpl. rewrite Hlen. reflexivity.
Qed.

(** Rows of equal count stay in their input order. *)
Lemma sort_values_keeps_ties_in_order :
  map PlayerCount.app_id
    (PlayerCount.sort_values
       [ {| PlayerCount.app_id := 1; PlayerCount.player_count := 5;
            PlayerCount.collected_at := "t" |};
         {| PlayerCount.app_id := 2; PlayerCount.player_count := 7;
            PlayerCount.collected_at := "t" |};
         {| PlayerCount.app_id := 3; PlayerCount.player_count := 5;
            PlayerCount.collected_at := "t" |} ])
  = [2; 1; 3]%Z.
Proof. vm_compute. reflexivity. Qed.

(** Where the three exports do what they are meant to.  On an empty
    list [save_to_csv] and [save_to_excel] leave the directory as it is,
    while [save_to_json] writes a file holding the empty array; on a
    non-empty list [save_to_json] writes its file, and [save_to_csv] and
    [save_to_excel] write theirs for the records of
    SteamPlayerCountCollector, and for those records of
    SteamRandomCollector whose categories and genres all carry a
    description ([described]). *)
Lemma export_skips_empty_data :
  (forall filename (files : gmap string PlayerCount.document),
     PlayerCount.save_to_csv [] filename files = files
     /\ PlayerCount.save_to_excel [] filename files = files
     /\ PlayerCount.save_to_json [] filename files
        = <[filename := PlayerCount.JsonArray []]> files)
  /\ (forall r data filename (files : gmap string PlayerCount.document),
        PlayerCount.save_to_json (r :: data) filename files !! filename
        = Some (PlayerCount.JsonArray (r :: data))
        /\ PlayerCount.save_to_csv (r :: data) filename files !! filename
           = Some (PlayerCount.CsvTable PlayerCount.column_order
                     (PlayerCount.sort_values (r :: data)))
        /\ PlayerCount.save_to_excel (r :: data) filename files !! filename
           = Some (PlayerCount.ExcelSheet PlayerCount.column_order
                     (PlayerCount.sort_values (r :: data))))
  /\ (forall filename (files : gmap string Metadata.document),
        Metadata.save_to_csv [] filename files = Returns files
        /\ Metadata.save_to_excel [] filename files = Returns files
        /\ Metadata.save_to_json [] filename files
           = Returns (<[filename := Metadata.JsonArray []]> files))
  /\ (forall g data filename (files : gmap string Metadata.document),
        Metadata.save_to_json (g :: data) filename files
        = Returns (<[filename := Metadata.JsonArray (g :: data)]> files)
        /\ (Forall Metadata.described (g :: data) ->
            exists rows,
              length rows = length (g :: data)
              /\ Metadata.save_to_csv (g :: data) filename files
                 = Returns (<[filename := Metadata.CsvTable Metadata.column_order rows]> files)
              /\ Metadata.save_to_excel (g :: data) filename files
                 = Returns (<[filename := Metadata.ExcelSheet Metadata.column_order rows]> files))).
Proof.
  split; [|split; [|split]].
  - intros filename files. auto.
  - intros r data filename files.
    unfold PlayerCount.save_to_json, PlayerCount.save_to_csv, PlayerCount.save_to_excel.
    rewrite !lookup_insert_eq. auto.
  - intros filename files. auto.
  - intros g data filename files. split; [reflexivity|]. intros Hd.
    destruct (flatten_all_described _ Hd) as (rows & Hrows & Hlen).
    exists rows. unfold Metadata.save_to_csv, Metadata.save_to_excel. rewrite Hrows. auto.
Qed.

(** C10: the one record SteamRandomCollector collects from a store
    answer with a category that lacks its description
    ([get_game_details] reads it with cat.get('description'), which gives
    None) is a non-empty list on which [save_to_json] writes its file,
    while [save_to_csv] and [save_to_excel] raise TypeError in
    '|'.join, before any file is opened. *)
Theorem export_raises_on_missing_description :
  fst (Metadata.collect_bulk {| Metadata.checkpoint_interval := 100 |}
         Metadata.odd_world "steam_random" [570%Z] Metadata.fresh_session) = Returns Metadata.odd_data
  /\ length Metadata.odd_data = 1
  /\ Metadata.save_to_json Metadata.odd_data "steam_random_1.json" ∅
     = Returns {["steam_random_1.json"%string := Metadata.JsonArray Metadata.odd_data]}
  /\ Metadata.save_to_csv Metadata.odd_data "steam_random_1.csv" ∅ = Raises TypeError
  /\ Metadata.save_to_excel Metadata.odd_data "steam_random_1.xlsx" ∅ = Raises TypeError.
Proof. vm_compute. auto 6. Qed.

End CollectorFacts.

(** ** The analysis scripts *)

Module SortFacts.
Import Analysis.

(** [np_sort] rearranges its argument ... *)
Lemma insert_sorted_Permutation {A : Type} (leb : A -> A -> bool) (x : A) (l : list A) :
  insert_sorted leb x l ≡ₚ x :: l.
Proof.
  induction l as [ | y l IH ]; simpl; [ reflexivity | ].
  destruct (leb x y); [ reflexivity | ].
  rewrite IH. apply Permutation_swap.
Qed.

Lemma np_sort_Permutation {A : Type} (leb : A -> A -> bool) (l : list A) :
  np_sort leb l ≡ₚ l.
Proof.
  induction l as [ | x l IH ]; simpl; [ reflexivity | ].
  unfold np_sort in *. simpl. rewrite insert_sorted_Permutation, IH. reflexivity.
Qed.

(** Reversing a sorted list sorts it the other way. *)
Lemma StronglySorted_rev_flip {A : Type} (R : A -> A -> Prop) (l : list A) :
  StronglySorted R l -> StronglySorted (flip R) (rev l).
Proof.
  induction 1 as [ | x l Hs IH Hx ]; [ constructor | ].
  simpl. apply StronglySorted_app_2; [ | exact IH | repeat constructor ].
  intros a b Ha Hb. apply list_elem_of_singleton in Hb as ->.
  apply list_elem_of_In, in_rev, list_elem_of_In in Ha.
  rewrite Forall_forall in Hx. apply Hx, Ha.
Qed.

End SortFacts.

(** *** The Gini coefficient *)

Module GiniFacts.
Import Analysis SortFacts.
Local Open Scope Z_scope.

(** C5: the Gini coefficient of the scripts is a float64 in [0, 1) on
    [100, 10, 1] and is the float64 zero on [5, 5, 5, 5]; computed in
    exact arithmetic, the same expression gives 22/37 and 0. *)
Theorem gini_of_the_two_samples :
  (exists g, gini [100; 10; 1]%Z = Returns g
     /\ PrimFloat.leb PrimFloat.zero g = true /\ PrimFloat.ltb g PrimFloat.one = true)
  /\ gini [5; 5; 5; 5]%Z = Returns PrimFloat.zero
  /\ (exists q, gini_exact [100; 10; 1]%Z = Some q /\ (q == 22 # 37)%Q)
  /\ (exists q, gini_exact [5; 5; 5; 5]%Z = Some q /\ (q == 0)%Q).
Proof.
  split; [ | split; [ | split ] ].
  - eexists. split; [ vm_compute; reflexivity | ]. split; vm_compute; reflexivity.
  - vm_compute. reflexivity.
  - eexists. split; [ vm_compute; reflexivity | ]. reflexivity.
  - eexists. split; [ vm_compute; reflexivity | ]. reflexivity.
Qed.

Lemma rank_weighted_sum_cons k x l : rank_weighted_sum k (x :: l) = Z.of_nat k * x + rank_weighted_sum (S k) l.
Proof. reflexivity. Qed.

Lemma rank_weighted_sum_shift l : forall k, rank_weighted_sum (S k) l = rank_weighted_sum k l + exact_sum l.
Proof.
  induction l as [ | x l IH ]; intros k; [ reflexivity | ].
  rewrite !rank_weighted_sum_cons, IH. simpl exact_sum. lia.
Qed.

Lemma exact_sum_Permutation l1 l2 : l1 ≡ₚ l2 -> exact_sum l1 = exact_sum l2.
Proof. induction 1; simpl; lia. Qed.

Lemma exact_sum_ge x l : Forall (Z.le x) l -> Z.of_nat (length l) * x <= exact_sum l.
Proof. induction 1; simpl length; simpl exact_sum; lia. Qed.

Lemma exact_sum_nonneg l : Forall (Z.le 0) l -> 0 <= exact_sum l.
Proof. intros H. pose proof (exact_sum_ge 0 l H). lia. Qed.

Lemma exact_sum_pos l x : Forall (Z.le 0) l -> x ∈ l -> 0 < x -> 0 < exact_sum l.
Proof.
  intros Hl Hx Hpos. apply list_elem_of_split in Hx as (l1 & l2 & ->).
  apply Forall_app in Hl as [H1 H2]. apply Forall_cons in H2 as [_ H2].
  rewrite (exact_sum_Permutation _ (x :: l1 ++ l2)) by (symmetry; apply Permutation_middle).
  pose proof (exact_sum_nonneg (l1 ++ l2) ltac:(apply Forall_app; auto)). simpl. lia.
Qed.

(** Of an ascending list, the rank-weighted sum is at least (n + 1) / 2
    times the sum ... *)
Lemma rank_weighted_sum_lower l :
  StronglySorted Z.le l ->
  (Z.of_nat (length l) + 1) * exact_sum l <= 2 * rank_weighted_sum 1 l.
Proof.
  induction 1 as [ | x l Hs IH Hx ]; [ unfold rank_weighted_sum, exact_sum; simpl; lia | ].
  rewrite rank_weighted_sum_cons, rank_weighted_sum_shift. simpl exact_sum.
  pose proof (exact_sum_ge x l Hx). rewrite length_cons, Nat2Z.inj_succ. nia.
Qed.

(** ... and of non-negative values, at most n times the sum. *)
Lemma rank_weighted_sum_upper l : Forall (Z.le 0) l -> forall k,
  rank_weighted_sum k l <= (Z.of_nat k + Z.of_nat (length l) - 1) * exact_sum l.
Proof.
  induction 1 as [ | x l Hx Hl IH ]; intros k; [ unfold rank_weighted_sum, exact_sum; simpl; lia | ].
  rewrite rank_weighted_sum_cons. specialize (IH (S k)).
  pose proof (exact_sum_nonneg l Hl). simpl exact_sum. rewrite length_cons, !Nat2Z.inj_succ in *. nia.
Qed.

Lemma insert_sorted_StronglySorted x l :
  StronglySorted Z.le l -> StronglySorted Z.le (insert_sorted Z.leb x l).
Proof.
  induction 1 as [ | y l Hs IH Hy ]; simpl; [ repeat constructor | ].
  destruct (Z.leb_spec x y) as [ Hxy | Hxy ].
  - constructor; [ constructor; assumption | ].
    constructor; [ exact Hxy | ]. eapply Forall_impl; [ exact Hy | ]. intros z Hz. simpl in *. lia.
  - constructor; [ exact IH | ].
    rewrite insert_sorted_Permutation. constructor; [ lia | exact Hy ].
Qed.

Lemma np_sort_StronglySorted l : StronglySorted Z.le (np_sort Z.leb l).
Proof.
  induction l as [ | x l IH ]; [ constructor | ].
  unfold np_sort in *. simpl. apply insert_sorted_StronglySorted, IH.
Qed.

(** The value of the Gini expression on integers that do not wrap
    lies in [0, 1) on every sample of non-negative integers that has a
    positive one. *)
Lemma gini_exact_bounds (data : list Z) (x : Z) :
  Forall (Z.le 0) data -> x ∈ data -> 0 < x ->
  exists g, gini_exact data = Some g /\ (0 <= g)%Q /\ (g < 1)%Q.
Proof.
  intros Hnonneg Hx Hpos.
  pose proof (np_sort_Permutation Z.leb data) as Hperm.
  pose proof (np_sort_StronglySorted data) as Hsorted.
  assert (Hlen : length (np_sort Z.leb data) = length data) by (rewrite Hperm; reflexivity).
  assert (Hs : 0 < exact_sum (np_sort Z.leb data)).
  { apply (exact_sum_pos _ x); [ rewrite Hperm; exact Hnonneg | rewrite Hperm; exact Hx | exact Hpos ]. }
  assert (Hn : (0 < length data)%nat).
  { destruct data; [ inversion Hx | simpl; lia ]. }
  pose proof (rank_weighted_sum_lower _ Hsorted) as Hlow.
  pose proof (rank_weighted_sum_upper (np_sort Z.leb data) ltac:(rewrite Hperm; exact Hnonneg) 1%nat) as Hup.
  unfold gini_exact.
  rewrite Hlen in *.
  set (n := Z.of_nat (length data)) in *.
  set (S := exact_sum (np_sort Z.leb data)) in *.
  set (W := rank_weighted_sum 1 (np_sort Z.leb data)) in *.
  assert (Hn' : 0 < n) by (unfold n; lia).
  assert (HT : 0 < n * S) by nia.
  destruct (Z.eqb_spec (n * S) 0) as [ H0 | _ ]; [ lia | ].
  eexists. split; [ reflexivity | ].
  replace (Z.of_nat (length data + 1)) with (n + 1) by (unfold n; lia).
  assert (HTq : (0 < inject_Z (n * S))%Q) by (rewrite <- (Zlt_Qlt 0); exact HT).
  assert (Hnq : (0 < inject_Z n)%Q) by (rewrite <- (Zlt_Qlt 0); exact Hn').
  assert (Heq : (inject_Z (2 * W) / inject_Z (n * S) - inject_Z (n + 1) / inject_Z n
                 == inject_Z (2 * W - (n + 1) * S) / inject_Z (n * S))%Q).
  { unfold Z.sub. rewrite !inject_Z_plus, inject_Z_opp, !inject_Z_mult, !inject_Z_plus.
    rewrite inject_Z_mult in HTq.
    field. split; intros H; rewrite H in *.
    - rewrite Qmult_0_r in HTq. apply Qlt_irrefl in HTq. exact HTq.
    - apply Qlt_irrefl in Hnq. exact Hnq. }
  rewrite Heq. split.
  - apply Qle_shift_div_l; [ exact HTq | ]. rewrite Qmult_0_l. rewrite <- (Zle_Qle 0). lia.
  - apply Qlt_shift_div_r; [ exact HTq | ]. rewrite Qmult_1_l. rewrite <- Zlt_Qlt. nia.
Qed.

(** *** Where int64 arithmetic is exact *)

Lemma int64_exact z : - 2 ^ 63 <= z < 2 ^ 63 -> int64 z = z.
Proof.
  intros Hz. unfold int64. rewrite Z.mod_small by lia. lia.
Qed.

Lemma exact_sum_app l1 l2 : exact_sum (l1 ++ l2) = exact_sum l1 + exact_sum l2.
Proof. induction l1 as [ | x l1 IH ]; simpl; [ reflexivity | ]. unfold exact_sum in *. simpl. lia. Qed.

(** np.sum of non-negative int64 values whose sum is below 2^63. *)
Lemma np_sum_from l : forall a,
  0 <= a -> Forall (Z.le 0) l -> a + exact_sum l < 2 ^ 63 ->
  fold_left (fun acc x => int64 (acc + x)) l a = a + exact_sum l.
Proof.
  induction l as [ | x l IH ]; intros a Ha Hl Hsum; simpl.
  - unfold exact_sum. simpl. lia.
  - apply Forall_cons in Hl as [Hx Hl].
    pose proof (exact_sum_nonneg l Hl) as Hrest.
    change (exact_sum (x :: l)) with (x + exact_sum l) in *.
    rewrite int64_exact by lia. rewrite IH by (assumption || lia). lia.
Qed.

Lemma np_sum_exact l :
  Forall (Z.le 0) l -> exact_sum l < 2 ^ 63 -> np_sum l = exact_sum l.
Proof. intros Hl Hsum. unfold np_sum. rewrite np_sum_from by (assumption || lia). lia. Qed.

Lemma np_multiply_exact a b :
  Forall (fun p => - 2 ^ 63 <= fst p * snd p < 2 ^ 63) (combine a b) ->
  np_multiply a b = map (fun p => fst p * snd p) (combine a b).
Proof.
  unfold np_multiply. induction 1 as [ | p l Hp Hl IH ]; simpl; [ reflexivity | ].
  rewrite int64_exact by exact Hp. f_equal. exact IH.
Qed.

(** The products rank * value of values in [0, m], ranks from k on. *)
Lemma ranked_products_bounds m l : Forall (fun x => 0 <= x <= m) l -> forall k,
  Forall (fun p => 0 <= fst p * snd p <= (Z.of_nat k + Z.of_nat (length l)) * m)
         (combine (map Z.of_nat (seq k (length l))) l).
Proof.
  induction 1 as [ | x l Hx Hl IH ]; intros k; simpl; [ constructor | ].
  constructor.
  - simpl. nia.
  - eapply Forall_impl; [ apply (IH (S k)) | ]. intros p Hp. simpl in Hp. nia.
Qed.

Lemma rank_weighted_sum_bound m l : Forall (fun x => 0 <= x <= m) l -> forall k,
  0 <= rank_weighted_sum k l
  /\ 2 * rank_weighted_sum k l
     <= m * Z.of_nat (length l) * (2 * Z.of_nat k + Z.of_nat (length l) - 1).
Proof.
  induction 1 as [ | x l Hx Hl IH ]; intros k.
  - unfold rank_weighted_sum. simpl. lia.
  - rewrite rank_weighted_sum_cons. destruct (IH (S k)) as [IH0 IH1].
    rewrite length_cons, !Nat2Z.inj_succ in *. nia.
Qed.

(** The Gini expression where nothing wraps.  For a sample of values in
    [0, m] with a positive one and n * (n + 1) * m < 2^63, every int64
    product and sum of the expression is exact: the code divides the
    integers W = 2 * sum(i * x_i) and T = n * sum(x) of the ascending
    sample, [gini] is the float64 evaluation of W / T - (n + 1) / n on
    them, and the exact value of that expression lies in [0, 1). *)
Theorem gini_without_overflow (data : list Z) (x m : Z) :
  Forall (fun y => 0 <= y <= m) data -> x ∈ data -> 0 < x ->
  Z.of_nat (length data) * (Z.of_nat (length data) + 1) * m < 2 ^ 63 ->
  let n := length data in
  let W := 2 * rank_weighted_sum 1 (np_sort Z.leb data) in
  let T := Z.of_nat n * exact_sum data in
  gini data
  = Returns (PrimFloat.sub (PrimFloat.div (float64 W) (float64 T))
               (PrimFloat.div (float64 (Z.of_nat (n + 1))) (float64 (Z.of_nat n))))
  /\ exists g,
       gini_exact data = Some g
       /\ (g == inject_Z W / inject_Z T - inject_Z (Z.of_nat (n + 1)) / inject_Z (Z.of_nat n))%Q
       /\ (0 <= g)%Q /\ (g < 1)%Q.
Proof.
  intros Hrange Hx Hpos Hbound. simpl.
  pose proof (np_sort_Permutation Z.leb data) as Hperm.
  assert (Hlen : length (np_sort Z.leb data) = length data) by (rewrite Hperm; reflexivity).
  assert (Hsorted_range : Forall (fun y => 0 <= y <= m) (np_sort Z.leb data))
    by (rewrite Hperm; exact Hrange).
  assert (Hnonneg : Forall (Z.le 0) data)
    by (eapply Forall_impl; [ exact Hrange | ]; intros y Hy; simpl in Hy; lia).
  assert (Hsorted_nonneg : Forall (Z.le 0) (np_sort Z.leb data))
    by (rewrite Hperm; exact Hnonneg).
  assert (Hn : (0 < length data)%nat) by (destruct data; [ inversion Hx | simpl; lia ]).
  assert (Hm : 0 < m).
  { rewrite Forall_forall in Hrange. specialize (Hrange x Hx). lia. }
  assert (Hsum_eq : exact_sum (np_sort Z.leb data) = exact_sum data)
    by (apply exact_sum_Permutation, Hperm).
  assert (Hsum_bound : 0 <= exact_sum data <= Z.of_nat (length data) * m).
  { split; [ apply exact_sum_nonneg, Hnonneg | ].
    clear -Hrange. induction Hrange as [ | y l Hy Hl IH ]; simpl; [ unfold exact_sum; simpl; lia | ].
    change (exact_sum (y :: l)) with (y + exact_sum l). lia. }
  destruct (rank_weighted_sum_bound m _ Hsorted_range 1%nat) as [HW0 HW].
  rewrite Hlen in HW.
  pose proof (ranked_products_bounds m _ Hsorted_range 1%nat) as Hproducts.
  rewrite Hlen in Hproducts.
  split.
  - unfold gini. rewrite Hlen. unfold arange1.
    destruct (Nat.eqb_spec (length data) 0) as [ H0 | _ ]; [ lia | ].
    rewrite np_multiply_exact.
    2:{ rewrite <- Hlen at 1. rewrite Hlen.
        eapply Forall_impl; [ exact Hproducts | ]. intros p Hp. simpl in Hp. nia. }
    assert (Hrws : exact_sum (map (fun p => fst p * snd p)
                                (combine (map Z.of_nat (seq 1 (length data)))
                                   (np_sort Z.leb data)))
                   = rank_weighted_sum 1 (np_sort Z.leb data))
      by (unfold rank_weighted_sum, exact_sum; rewrite Hlen; reflexivity).
    rewrite np_sum_exact.
    2:{ apply Forall_forall. intros y Hy. apply list_elem_of_fmap in Hy as (p & -> & Hp).
        rewrite Forall_forall in Hproducts. specialize (Hproducts p Hp). simpl in Hproducts. lia. }
    2:{ rewrite Hrws. nia. }
    rewrite Hrws.
    rewrite (np_sum_exact (np_sort Z.leb data)) by (assumption || (rewrite Hsum_eq; nia)).
    rewrite Hsum_eq.
    rewrite !int64_exact by nia. reflexivity.
  - destruct (gini_exact_bounds data x Hnonneg Hx Hpos) as (g & Hg & Hg0 & Hg1).
    exists g. split; [ exact Hg | ]. split; [ | split; assumption ].
    unfold gini_exact in Hg. rewrite Hlen, Hsum_eq in Hg.
    destruct (Z.eqb_spec (Z.of_nat (length data) * exact_sum data) 0); [ discriminate | ].
    injection Hg as <-. reflexivity.
Qed.

Lemma gini_without_overflow_witness :
  let data := [100; 10; 1] in
  let n := length data in
  let W := 2 * rank_weighted_sum 1 (np_sort Z.leb data) in
  let T := Z.of_nat n * exact_sum data in
  gini data
  = Returns (PrimFloat.sub (PrimFloat.div (float64 W) (float64 T))
               (PrimFloat.div (float64 (Z.of_nat (n + 1))) (float64 (Z.of_nat n))))
  /\ exists g,
       gini_exact data = Some g
       /\ (g == inject_Z W / inject_Z T - inject_Z (Z.of_nat (n + 1)) / inject_Z (Z.of_nat n))%Q
       /\ (0 <= g)%Q /\ (g < 1)%Q.
Proof.
  apply (gini_without_overflow [100; 10; 1] 100 100).
  - repeat constructor; lia.
  - left.
  - lia.
  - vm_compute. reflexivity.
Defined.

End GiniFacts.

(** *** The rank-size regression *)

Module PowerLawFacts.
Import Analysis SortFacts.

Lemma positive_values_nil (data : list Q) :
  Forall (fun x => ~ (0 < x)%Q) data -> positive_values data = [].
Proof.
  unfold positive_values.
  induction 1 as [ | x l Hx _ IH ]; [ reflexivity | ].
  rewrite filter_cons. destruct (decide (Qpositive x = true)) as [Hp | _]; [ | exact IH ].
  exfalso. apply Hx. unfold Qpositive in Hp.
  apply negb_true_iff in Hp.
  destruct (Qlt_le_dec 0 x) as [Hlt | Hle]; [ exact Hlt | ].
  apply Qle_bool_iff in Hle. congruence.
Qed.

(** C7: on a list without a positive value (the empty list is one)
    [calculate_power_law] returns (None, None, None): it does not raise,
    and it hands no number to np.log10. *)
Theorem calculate_power_law_no_positive_value (data : list Q) :
  Forall (fun x => ~ (0 < x)%Q) data ->
  calculate_power_law data = Returns NoData /\ log10_arguments data = [].
Proof.
  intros H. unfold calculate_power_law, log10_arguments.
  rewrite (positive_values_nil data H). split; reflexivity.
Qed.

(** A list of a zero and two negative values. *)
Lemma calculate_power_law_no_positive_value_witness :
  calculate_power_law [0; -3 # 1; -1 # 2]%Q = Returns NoData
  /\ log10_arguments [0; -3 # 1; -1 # 2]%Q = [].
Proof.
  apply (calculate_power_law_no_positive_value [0; -3 # 1; -1 # 2]%Q).
  repeat constructor; vm_compute; discriminate.
Defined.

Lemma positive_values_positive (data : list Q) :
  Forall (fun x => (0 < x)%Q) (positive_values data).
Proof.
  apply Forall_forall. intros x Hx. unfold positive_values in Hx.
  apply list_elem_of_filter in Hx as [Hp _].
  unfold Qpositive in Hp. apply negb_true_iff in Hp.
  destruct (Qlt_le_dec 0 x) as [ Hlt | Hle ]; [ exact Hlt | ].
  apply Qle_bool_iff in Hle. congruence.
Qed.

Lemma sorted_data_Permutation (data : list Q) : sorted_data data ≡ₚ data.
Proof. unfold sorted_data. rewrite <- Permutation_rev. apply np_sort_Permutation. Qed.

Local Open Scope R_scope.

Lemma ln_10_pos : 0 < ln 10.
Proof. rewrite <- ln_1. apply ln_increasing; lra. Qed.

Lemma log10_1 : log10 1 = 0.
Proof. unfold log10. rewrite ln_1. lra. Qed.

Lemma log10_mult (x y : R) : 0 < x -> 0 < y -> log10 (x * y) = log10 x + log10 y.
Proof.
  intros Hx Hy. unfold log10. rewrite ln_mult by assumption.
  pose proof ln_10_pos. field. lra.
Qed.

Lemma log10_10 : log10 10 = 1.
Proof. unfold log10. pose proof ln_10_pos. field. lra. Qed.

Lemma log10_increasing (x y : R) : 0 < x -> x < y -> log10 x < log10 y.
Proof.
  intros Hx Hxy. unfold log10. pose proof ln_10_pos as H10.
  apply Rmult_lt_compat_r; [ apply Rinv_0_lt_compat; exact H10 | ].
  apply ln_increasing; assumption.
Qed.

Lemma log10_pow (x : R) (n : nat) : 0 < x -> log10 (x ^ n) = INR n * log10 x.
Proof.
  intros Hx. unfold log10. rewrite ln_pow by exact Hx. pose proof ln_10_pos. field. lra.
Qed.

Lemma log10_2_pos : 0 < log10 2.
Proof. rewrite <- log10_1. apply log10_increasing; lra. Qed.

(** 8 < 9 and 3^17 < 2^27: log2 3 lies between 3/2 and 27/17. *)
Lemma log10_3_lower : 3 * log10 2 < 2 * log10 3.
Proof.
  assert (H2 : log10 (2 ^ 3) = 3 * log10 2).
  { rewrite log10_pow by lra. simpl. lra. }
  assert (H3 : log10 (3 ^ 2) = 2 * log10 3).
  { rewrite log10_pow by lra. simpl. lra. }
  rewrite <- H2, <- H3.
  apply log10_increasing; lra.
Qed.

Lemma log10_3_upper : 17 * log10 3 < 27 * log10 2.
Proof.
  assert (H3 : log10 (3 ^ 17) = 17 * log10 3).
  { rewrite log10_pow by lra. rewrite INR_IZR_INZ. reflexivity. }
  assert (H2 : log10 (2 ^ 27) = 27 * log10 2).
  { rewrite log10_pow by lra. rewrite INR_IZR_INZ. reflexivity. }
  rewrite <- H2, <- H3.
  apply log10_increasing; [ apply pow_lt; lra | ].
  replace (3 ^ 17) with 129140163 by ring.
  replace (2 ^ 27) with 134217728 by ring. lra.
Qed.

Lemma log10_4 : log10 4 = 2 * log10 2.
Proof. replace 4 with (2 * 2) by lra. rewrite log10_mult by lra. lra. Qed.

Lemma log10_1000 : log10 1000 = 3.
Proof.
  replace 1000 with (10 ^ 3) by ring. rewrite log10_pow by lra.
  rewrite log10_10. simpl. lra.
Qed.

Lemma log10_500 : log10 500 = 3 - log10 2.
Proof.
  pose proof (log10_mult 500 2 ltac:(lra) ltac:(lra)) as H.
  replace (500 * 2) with 1000 in H by lra. rewrite log10_1000 in H. lra.
Qed.

Lemma log10_250 : log10 250 = 3 - 2 * log10 2.
Proof.
  pose proof (log10_mult 250 2 ltac:(lra) ltac:(lra)) as H.
  replace (250 * 2) with 500 in H by lra. rewrite log10_500 in H. lra.
Qed.

Lemma log10_125 : log10 125 = 3 - 3 * log10 2.
Proof.
  pose proof (log10_mult 125 2 ltac:(lra) ltac:(lra)) as H.
  replace (125 * 2) with 250 in H by lra. rewrite log10_250 in H. lra.
Qed.

Lemma geometric_sample_positive : positive_values geometric_sample = geometric_sample.
Proof. vm_compute. reflexivity. Qed.

Lemma geometric_sample_sorted : sorted_data geometric_sample = geometric_sample.
Proof. vm_compute. reflexivity. Qed.

Lemma geometric_sample_logs :
  map log10 (map INR (arange1 (length geometric_sample)))
    = [0; log10 2; log10 3; 2 * log10 2]
  /\ map log10 (map Q2R geometric_sample)
    = [3; 3 - log10 2; 3 - 2 * log10 2; 3 - 3 * log10 2].
Proof.
  split.
  - cbn [geometric_sample length arange1 seq map].
    rewrite !INR_IZR_INZ.
    change (Z.of_nat 1) with 1%Z. change (Z.of_nat 2) with 2%Z.
    change (Z.of_nat 3) with 3%Z. change (Z.of_nat 4) with 4%Z.
    rewrite log10_1, log10_4. reflexivity.
  - cbn [geometric_sample map]. unfold Q2R. cbn [Qnum Qden].
    rewrite Rinv_1, !Rmult_1_r.
    rewrite log10_1000, log10_500, log10_250, log10_125. reflexivity.
Qed.

Lemma Reqb_false (u v : R) : u <> v -> Reqb u v = false.
Proof. intros H. unfold Reqb. destruct (Req_dec_T u v); [ contradiction | reflexivity ]. Qed.

Lemma Rltb_false (u v : R) : v <= u -> Rltb u v = false.
Proof. intros H. unfold Rltb. destruct (Rlt_dec u v); [ lra | reflexivity ]. Qed.

Section FourPoints.

Variables a b : R.
Hypothesis a_pos : 0 < a.

Lemma cov_ranks4 : np_cov (ranks4 a b) (ranks4 a b) = (11 * a ^ 2 - 6 * a * b + 3 * b ^ 2) / 16.
Proof. unfold np_cov, np_mean, ranks4. simpl. field. Qed.

Lemma cov_ranks4_values4 : np_cov (ranks4 a b) (values4 a b) = - (a * (5 * a + b)) / 8.
Proof. unfold np_cov, np_mean, ranks4, values4. simpl. field. Qed.

Lemma cov_values4 : np_cov (values4 a b) (values4 a b) = 5 * a ^ 2 / 4.
Proof. unfold np_cov, np_mean, values4. simpl. field. Qed.

Lemma ranks4_spread : 0 < 11 * a ^ 2 - 6 * a * b + 3 * b ^ 2.
Proof.
  replace (11 * a ^ 2 - 6 * a * b + 3 * b ^ 2) with (3 * (b - a) ^ 2 + 8 * a ^ 2) by ring.
  pose proof (pow2_ge_0 (b - a)). pose proof (pow_lt a 2 a_pos). lra.
Qed.

Lemma ranks4_not_constant : np_amax (ranks4 a b) <> np_amin (ranks4 a b).
Proof.
  unfold np_amax, np_amin, ranks4. simpl.
  assert (a <= Rmax a (Rmax b (Rmax (2 * a) 0))) by apply Rmax_l.
  assert (Rmin a (Rmin b (Rmin (2 * a) 0)) <= 0).
  { eapply Rle_trans; [ apply Rmin_r | ]. eapply Rle_trans; [ apply Rmin_r | ]. apply Rmin_r. }
  lra.
Qed.

Lemma linregress_four_points :
  exists r,
    linregress (ranks4 a b) (values4 a b)
      = Returns {| slope := Finite (- (2 * a * (5 * a + b)) / (11 * a ^ 2 - 6 * a * b + 3 * b ^ 2));
                   rvalue := r |}
    /\ r ^ 2 = (5 * a + b) ^ 2 / (5 * (11 * a ^ 2 - 6 * a * b + 3 * b ^ 2)).
Proof.
  pose proof ranks4_spread as Hs.
  set (q := 11 * a ^ 2 - 6 * a * b + 3 * b ^ 2) in *.
  assert (Ha2 : 0 < a ^ 2) by (apply pow_lt; exact a_pos).
  set (D := q / 16 * (5 * a ^ 2 / 4)).
  assert (HD : 0 < D) by (unfold D; nra).
  set (N := - (a * (5 * a + b)) / 8).
  assert (HND : N ^ 2 < D).
  { unfold N, D, q.
    assert (0 < a ^ 2 * (30 * (a - 2 / 3 * b) ^ 2 + 2 / 3 * b ^ 2 + 0 * a)).
    { apply Rmult_lt_0_compat; [ exact Ha2 | ].
      destruct (Req_dec b 0) as [-> | Hb].
      - nra.
      - assert (0 < b ^ 2) by (replace (b ^ 2) with (Rsqr b) by (unfold Rsqr; ring); apply Rsqr_pos_lt; exact Hb).
        pose proof (pow2_ge_0 (a - 2 / 3 * b)). lra. }
    nra. }
  pose proof (sqrt_lt_R0 D HD) as Hsq.
  pose proof (pow2_sqrt D (Rlt_le _ _ HD)) as Hsq2.
  exists (N / sqrt D). split.
  - unfold linregress.
    change (length (ranks4 a b)) with 4%nat. change (length (values4 a b)) with 4%nat.
    cbn [Nat.eqb orb negb Nat.ltb Nat.leb andb].
    rewrite (Reqb_false _ _ ranks4_not_constant). cbn [andb].
    rewrite cov_ranks4, cov_ranks4_values4, cov_values4.
    fold q. fold N. fold D.
    rewrite (Reqb_false (q / 16) 0) by lra.
    rewrite (Reqb_false (5 * a ^ 2 / 4) 0) by lra.
    cbn [orb].
    assert (Hr : (N / sqrt D) ^ 2 < 1).
    { replace ((N / sqrt D) ^ 2) with (N ^ 2 / sqrt D ^ 2) by (field; lra).
      rewrite Hsq2. apply (Rmult_lt_reg_r D); [ exact HD | ].
      unfold Rdiv. rewrite Rmult_assoc, Rinv_l by lra. lra. }
    rewrite (Rltb_false 1 (N / sqrt D)) by nra.
    rewrite (Rltb_false (N / sqrt D) (-1)) by nra.
    do 3 f_equal. unfold N. field. lra.
  - replace ((N / sqrt D) ^ 2) with (N ^ 2 / sqrt D ^ 2) by (field; lra).
    rewrite Hsq2. unfold N, D. field. lra.
Qed.

End FourPoints.

(** The fit of the geometric sample, in terms of log10 2 and log10 3. *)
Lemma geometric_sample_regression :
  exists r,
    rank_size_regression geometric_sample
      = Returns {| slope := Finite (- (2 * log10 2 * (5 * log10 2 + log10 3))
                                    / (11 * log10 2 ^ 2 - 6 * log10 2 * log10 3 + 3 * log10 3 ^ 2));
                   rvalue := r |}
    /\ r ^ 2 = (5 * log10 2 + log10 3) ^ 2
              / (5 * (11 * log10 2 ^ 2 - 6 * log10 2 * log10 3 + 3 * log10 3 ^ 2)).
Proof.
  unfold rank_size_regression.
  destruct geometric_sample_logs as [-> ->].
  exact (linregress_four_points (log10 2) (log10 3) log10_2_pos).
Qed.

Lemma geometric_sample_r_squared_bounds :
  24 / 25 < (5 * log10 2 + log10 3) ^ 2
            / (5 * (11 * log10 2 ^ 2 - 6 * log10 2 * log10 3 + 3 * log10 3 ^ 2)) < 97 / 100.
Proof.
  pose proof log10_2_pos as Ha. pose proof log10_3_lower as Hl. pose proof log10_3_upper as Hu.
  pose proof (ranks4_spread (log10 2) (log10 3) Ha) as Hq.
  set (a := log10 2) in *. set (b := log10 3) in *.
  set (q := 11 * a ^ 2 - 6 * a * b + 3 * b ^ 2) in *.
  assert (H1 : 0 < (2 * b - 3 * a) * (27 * a - 17 * b)) by (apply Rmult_lt_0_compat; lra).
  assert (H2 : 0 < a * (27 * a - 17 * b)) by (apply Rmult_lt_0_compat; lra).
  assert (H3 : 0 <= (a - 391 / 567 * b) ^ 2) by apply pow2_ge_0.
  assert (H4 : 0 < b ^ 2) by (apply pow_lt; lra).
  split.
  - apply (Rmult_lt_reg_r (5 * q)); [ lra | ].
    replace ((5 * a + b) ^ 2 / (5 * q) * (5 * q)) with ((5 * a + b) ^ 2) by (field; lra).
    unfold q. nra.
  - apply (Rmult_lt_reg_r (5 * q)); [ lra | ].
    replace ((5 * a + b) ^ 2 / (5 * q) * (5 * q)) with ((5 * a + b) ^ 2) by (field; lra).
    unfold q. nra.
Qed.

(** C4, as stated, fails: on [1000, 500, 250, 125] both scripts return
    an R² that is not 1. *)
Lemma geometric_sample_r_squared_is_not_one :
  exists alpha r_squared,
    calculate_power_law [1000; 500; 250; 125]%Q = Returns (Fit alpha r_squared 4)
    /\ calculate_power_law_metrics [1000; 500; 250; 125]%Q = Returns (alpha, r_squared)
    /\ r_squared <> 1.
Proof.
  destruct geometric_sample_regression as (r & Hfit & Hr).
  pose proof geometric_sample_r_squared_bounds as Hb. rewrite <- Hr in Hb.
  eexists _, (r ^ 2). split; [ | split ].
  - unfold calculate_power_law. fold geometric_sample.
    rewrite geometric_sample_positive. cbn [geometric_sample length Nat.eqb].
    fold geometric_sample. rewrite geometric_sample_sorted, Hfit. reflexivity.
  - unfold calculate_power_law_metrics. fold geometric_sample.
    rewrite geometric_sample_sorted, Hfit. reflexivity.
  - lra.
Qed.

(** C4, amended: on [1000, 500, 250, 125] the rank-size regression of
    both scripts returns an R² strictly between 0.96 and 0.97, namely
    (5a + b)² / (5 (11a² - 6ab + 3b²)) for a = log10 2 and b = log10 3
    (about 0.9607): the sample is geometric in the rank, not a power of
    it. *)
Theorem geometric_sample_r_squared :
  exists alpha r_squared,
    calculate_power_law [1000; 500; 250; 125]%Q = Returns (Fit (Finite alpha) r_squared 4)
    /\ calculate_power_law_metrics [1000; 500; 250; 125]%Q = Returns (Finite alpha, r_squared)
    /\ r_squared = (5 * log10 2 + log10 3) ^ 2
                   / (5 * (11 * log10 2 ^ 2 - 6 * log10 2 * log10 3 + 3 * log10 3 ^ 2))
    /\ 24 / 25 < r_squared < 97 / 100.
Proof.
  destruct geometric_sample_regression as (r & Hfit & Hr).
  pose proof geometric_sample_r_squared_bounds as Hb. rewrite <- Hr in Hb.
  eexists _, (r ^ 2). split; [ | split; [ | split ] ].
  - unfold calculate_power_law. fold geometric_sample.
    rewrite geometric_sample_positive. cbn [geometric_sample length Nat.eqb].
    fold geometric_sample. rewrite geometric_sample_sorted, Hfit. reflexivity.
  - unfold calculate_power_law_metrics. fold geometric_sample.
    rewrite geometric_sample_sorted, Hfit. reflexivity.
  - exact Hr.
  - exact Hb.
Qed.

(** Whatever the input, every number handed to np.log10 is positive. *)
Theorem log10_arguments_positive (data : list Q) :
  Forall (fun x => 0 < x) (log10_arguments data).
Proof.
  unfold log10_arguments.
  destruct (length (positive_values data) =? 0)%nat; [ constructor | ].
  apply Forall_app. split.
  - apply Forall_forall. intros x Hx.
    apply list_elem_of_fmap in Hx as (n & -> & Hn).
    apply elem_of_seq in Hn. apply lt_0_INR. lia.
  - apply Forall_forall. intros x Hx.
    apply list_elem_of_fmap in Hx as (q & -> & Hq).
    rewrite sorted_data_Permutation in Hq.
    pose proof (positive_values_positive data) as Hpos.
    rewrite Forall_forall in Hpos. specialize (Hpos q Hq).
    apply Qlt_Rlt in Hpos. rewrite RMicromega.Q2R_0 in Hpos. exact Hpos.
Qed.

Lemma np_amin_le_head (a : R) (l : list R) : np_amin (a :: l) <= a.
Proof.
  simpl. induction l as [ | b l IH ]; simpl; [ lra | ].
  eapply Rle_trans; [ apply Rmin_r | exact IH ].
Qed.

Lemma np_amax_ge_second (a b : R) (l : list R) : b <= np_amax (a :: b :: l).
Proof. simpl. apply Rmax_l. Qed.

(** The log-ranks of two or more items are not all the same, so
    [linregress] does not refuse them. *)
Lemma log_ranks_not_constant (n : nat) :
  (2 <= n)%nat ->
  np_amax (map log10 (map INR (arange1 n))) <> np_amin (map log10 (map INR (arange1 n))).
Proof.
  intros Hn. destruct n as [ | [ | n ] ]; [ lia | lia | ].
  unfold arange1. cbn [seq map].
  pose proof (np_amin_le_head (log10 (INR 1)) (log10 (INR 2) :: map log10 (map INR (seq 3 n)))) as Hmin.
  pose proof (np_amax_ge_second (log10 (INR 1)) (log10 (INR 2)) (map log10 (map INR (seq 3 n)))) as Hmax.
  replace (log10 (INR 1)) with 0 in * by (unfold log10; simpl; rewrite ln_1; lra).
  replace (INR 2) with 2 in * by (simpl; lra).
  pose proof log10_2_pos. lra.
Qed.

Lemma harmonic_sample_logs :
  map log10 (map Q2R harmonic_sample) = harmonic_values4 (log10 2) (log10 3).
Proof.
  cbn [harmonic_sample map]. unfold Q2R. cbn [Qnum Qden].
  rewrite Rinv_1, !Rmult_1_r.
  replace 12 with (2 * (2 * 3)) by lra. replace 6 with (2 * 3) by lra.
  replace 4 with (2 * 2) by lra.
  rewrite !log10_mult by lra. unfold harmonic_values4.
  repeat (apply (f_equal2 cons); [ lra | ]). reflexivity.
Qed.

Section Harmonic.

Variables a b : R.
Hypothesis a_pos : 0 < a.

Lemma cov_ranks4_harmonic :
  np_cov (ranks4 a b) (harmonic_values4 a b) = - ((11 * a ^ 2 - 6 * a * b + 3 * b ^ 2) / 16).
Proof. unfold np_cov, np_mean, ranks4, harmonic_values4. simpl. field. Qed.

Lemma cov_harmonic :
  np_cov (harmonic_values4 a b) (harmonic_values4 a b)
  = (11 * a ^ 2 - 6 * a * b + 3 * b ^ 2) / 16.
Proof. unfold np_cov, np_mean, harmonic_values4. simpl. field. Qed.

Lemma linregress_harmonic :
  linregress (ranks4 a b) (harmonic_values4 a b)
  = Returns {| slope := Finite (-1); rvalue := -1 |}.
Proof.
  pose proof (ranks4_spread a b a_pos) as Hs.
  unfold linregress.
  change (length (ranks4 a b)) with 4%nat. change (length (harmonic_values4 a b)) with 4%nat.
  cbn [Nat.eqb orb negb Nat.ltb Nat.leb andb].
  rewrite (Reqb_false _ _ (ranks4_not_constant a b a_pos)). cbn [andb].
  rewrite cov_ranks4, cov_ranks4_harmonic, cov_harmonic.
  set (q := (11 * a ^ 2 - 6 * a * b + 3 * b ^ 2) / 16) in *.
  assert (Hq : 0 < q) by (unfold q; lra).
  rewrite (Reqb_false q 0) by lra. cbn [orb].
  rewrite sqrt_square by lra.
  replace (- q / q) with (-1) by (field; lra).
  rewrite (Rltb_false 1 (-1)) by lra.
  rewrite (Rltb_false (-1) (-1)) by lra.
  reflexivity.
Qed.

End Harmonic.

(** In this arithmetic a sample that is a power of the rank, here
    12 / rank, is fitted exactly: exponent 1 and R² = 1, by both
    scripts. *)
Theorem harmonic_sample_r_squared_is_one :
  calculate_power_law [12; 6; 4; 3]%Q = Returns (Fit (Finite 1) 1 4)
  /\ calculate_power_law_metrics [12; 6; 4; 3]%Q = Returns (Finite 1, 1).
Proof.
  assert (Hsorted : sorted_data harmonic_sample = harmonic_sample) by (vm_compute; reflexivity).
  assert (Hpositive : positive_values harmonic_sample = harmonic_sample)
    by (vm_compute; reflexivity).
  assert (Hfit : rank_size_regression harmonic_sample
                 = Returns {| slope := Finite (-1); rvalue := -1 |}).
  { unfold rank_size_regression. rewrite harmonic_sample_logs.
    change (length harmonic_sample) with (length geometric_sample).
    destruct geometric_sample_logs as [-> _].
    exact (linregress_harmonic (log10 2) (log10 3) log10_2_pos). }
  fold harmonic_sample. split.
  - unfold calculate_power_law. rewrite Hpositive. cbn [harmonic_sample length Nat.eqb].
    fold harmonic_sample. rewrite Hsorted, Hfit. cbn [slope rvalue negative].
    do 2 f_equal; [ f_equal; lra | lra ].
  - unfold calculate_power_law_metrics. rewrite Hsorted, Hfit. cbn [slope rvalue negative].
    do 2 f_equal; [ f_equal; lra | lra ].
Qed.

(** *** The sign of the exponent *)

(** Sums over a list of pairs: *)
Lemma sum_deviations (l : list (R * R)) (u v : R) :
  fold_right Rplus 0 (map (fun p => (fst p - u) * (snd p - v)) l)
  = fold_right Rplus 0 (map (fun p => fst p * snd p) l)
    - v * fold_right Rplus 0 (map fst l) - u * fold_right Rplus 0 (map snd l)
    + INR (length l) * u * v.
Proof.
  induction l as [ | [a b] l IH ]; [ simpl; ring | ].
  cbn [map fold_right fst snd]. rewrite IH, length_cons, S_INR. ring.
Qed.

Lemma map_fst_combine {A B : Type} (x : list A) (y : list B) :
  length x = length y -> map fst (combine x y) = x.
Proof.
  revert y. induction x as [ | a x IH ]; intros [ | b y ] H; try discriminate; [ reflexivity | ].
  simpl. f_equal. apply IH. simpl in H. lia.
Qed.

Lemma map_snd_combine {A B : Type} (x : list A) (y : list B) :
  length x = length y -> map snd (combine x y) = y.
Proof.
  revert y. induction x as [ | a x IH ]; intros [ | b y ] H; try discriminate; [ reflexivity | ].
  simpl. f_equal. apply IH. simpl in H. lia.
Qed.

(** [np_cov] of two lists of one positive length n, as
    (n * sum(x * y) - sum(x) * sum(y)) / n². *)
Lemma np_cov_sums (x y : list R) :
  length x = length y -> (0 < length x)%nat ->
  np_cov x y
  = (INR (length x) * fold_right Rplus 0 (map (fun p => fst p * snd p) (combine x y))
     - fold_right Rplus 0 x * fold_right Rplus 0 y) / (INR (length x) * INR (length x)).
Proof.
  intros Hlen Hpos. unfold np_cov, np_mean at 1.
  rewrite sum_deviations, length_map, length_combine, <- Hlen, Nat.min_id.
  rewrite (map_fst_combine x y Hlen), (map_snd_combine x y Hlen).
  unfold np_mean. rewrite <- Hlen.
  assert (0 < INR (length x)) by (apply lt_0_INR; exact Hpos).
  field. lra.
Qed.

(** Chebyshev's sum inequality, for a list of pairs whose first
    components ascend while the second ones descend. *)
Lemma opposed_head (a b : R) (l : list (R * R)) :
  Forall (fun q => a <= fst q /\ snd q <= b) l ->
  INR (length l) * (a * b) - a * fold_right Rplus 0 (map snd l)
  - b * fold_right Rplus 0 (map fst l) + fold_right Rplus 0 (map (fun p => fst p * snd p) l)
  <= 0.
Proof.
  induction 1 as [ | [c d] l [Hc Hd] _ IH ]; [ simpl; lra | ].
  cbn [map fold_right fst snd] in *. rewrite length_cons, S_INR.
  assert ((a - c) * (b - d) <= 0) by nra. nra.
Qed.

Lemma opposed_sums (l : list (R * R)) :
  StronglySorted (fun p q => fst p <= fst q /\ snd q <= snd p) l ->
  INR (length l) * fold_right Rplus 0 (map (fun p => fst p * snd p) l)
  <= fold_right Rplus 0 (map fst l) * fold_right Rplus 0 (map snd l).
Proof.
  induction 1 as [ | [a b] l _ IH Hhead ]; [ simpl; lra | ].
  pose proof (opposed_head a b l Hhead) as Hh.
  cbn [map fold_right fst snd] in *. rewrite length_cons, S_INR. nra.
Qed.

Lemma combine_opposed (x y : list R) :
  StronglySorted Rle x -> StronglySorted (flip Rle) y ->
  StronglySorted (fun p q => fst p <= fst q /\ snd q <= snd p) (combine x y).
Proof.
  intros Hx. revert y. induction Hx as [ | a x Hx IH Ha ]; intros y Hy; [ constructor | ].
  destruct Hy as [ | b y Hy Hb ]; [ constructor | ].
  simpl. constructor; [ apply IH, Hy | ].
  apply Forall_forall. intros [c d] Hin. apply list_elem_of_In in Hin.
  rewrite Forall_forall in Ha, Hb. simpl. split.
  - apply Ha. apply list_elem_of_In. eapply in_combine_l, Hin.
  - apply Hb. apply list_elem_of_In. eapply in_combine_r, Hin.
Qed.

(** The covariance of an ascending and a descending list is not
    positive. *)
Lemma np_cov_opposed (x y : list R) :
  length x = length y -> (0 < length x)%nat ->
  StronglySorted Rle x -> StronglySorted (flip Rle) y ->
  np_cov x y <= 0.
Proof.
  intros Hlen Hpos Hx Hy. rewrite np_cov_sums by assumption.
  pose proof (opposed_sums _ (combine_opposed x y Hx Hy)) as H.
  rewrite length_combine, <- Hlen, Nat.min_id in H.
  rewrite (map_fst_combine x y Hlen), (map_snd_combine x y Hlen) in H.
  assert (0 < INR (length x)) by (apply lt_0_INR; exact Hpos).
  apply Rmult_le_reg_r with (INR (length x) * INR (length x)); [ nra | ].
  unfold Rdiv. rewrite Rmult_assoc, Rinv_l by nra. lra.
Qed.

Lemma log10_le (x y : R) : 0 < x -> x <= y -> log10 x <= log10 y.
Proof.
  intros Hx [Hlt | ->]; [ | lra ]. left. apply log10_increasing; assumption.
Qed.

Lemma log_ranks_ascending (n s : nat) :
  (1 <= s)%nat -> StronglySorted Rle (map log10 (map INR (seq s n))).
Proof.
  revert s. induction n as [ | n IH ]; intros s Hs; [ constructor | ].
  cbn [seq map]. constructor; [ apply IH; lia | ].
  apply Forall_forall. intros x Hx.
  apply list_elem_of_fmap in Hx as (r & -> & Hr).
  apply list_elem_of_fmap in Hr as (k & -> & Hk).
  apply elem_of_seq in Hk. apply log10_le; [ apply lt_0_INR; lia | apply le_INR; lia ].
Qed.

Lemma insert_sorted_Qle (x : Q) (l : list Q) :
  StronglySorted Qle l -> StronglySorted Qle (insert_sorted Qle_bool x l).
Proof.
  induction 1 as [ | y l Hs IH Hy ]; simpl; [ repeat constructor | ].
  destruct (Qle_bool x y) eqn:Hxy.
  - apply Qle_bool_iff in Hxy.
    constructor; [ constructor; assumption | ].
    constructor; [ exact Hxy | ].
    eapply Forall_impl; [ exact Hy | ]. intros z Hz. simpl in *. eapply Qle_trans; eassumption.
  - assert (Hyx : (y <= x)%Q).
    { destruct (Qlt_le_dec y x) as [ Hlt | Hle ]; [ apply Qlt_le_weak, Hlt | ].
      apply Qle_bool_iff in Hle. congruence. }
    constructor; [ exact IH | ].
    rewrite insert_sorted_Permutation. constructor; [ exact Hyx | exact Hy ].
Qed.

Lemma np_sort_Qle (l : list Q) : StronglySorted Qle (np_sort Qle_bool l).
Proof.
  induction l as [ | x l IH ]; [ constructor | ].
  unfold np_sort in *. simpl. apply insert_sorted_Qle, IH.
Qed.


Lemma log_values_descending (l : list Q) :
  Forall (fun q => (0 < q)%Q) l ->
  StronglySorted (flip Rle) (map log10 (map Q2R (sorted_data l))).
Proof.
  intros Hpos.
  assert (Hs : StronglySorted (flip Qle) (sorted_data l))
    by (apply StronglySorted_rev_flip, np_sort_Qle).
  assert (Hp : Forall (fun q => (0 < q)%Q) (sorted_data l))
    by (rewrite sorted_data_Permutation; exact Hpos).
  induction Hs as [ | q rest Hs IH Hq ]; [ constructor | ].
  apply Forall_cons in Hp as [Hq0 Hp]. cbn [map]. constructor; [ apply IH, Hp | ].
  apply Forall_forall. intros x Hx.
  apply list_elem_of_fmap in Hx as (r & -> & Hr).
  apply list_elem_of_fmap in Hr as (k & -> & Hk).
  rewrite Forall_forall in Hq, Hp. unfold flip in *.
  apply log10_le.
  - pose proof (Qlt_Rlt _ _ (Hp k Hk)) as H0. rewrite RMicromega.Q2R_0 in H0. exact H0.
  - apply Qle_Rle, Hq, Hk.
Qed.

Lemma square_sum_head (a : R) (l : list R) :
  0 <= INR (length l) * (a * a) - 2 * a * fold_right Rplus 0 l
       + fold_right Rplus 0 (map (fun x => x * x) l)
  /\ match l with
     | [] => True
     | b :: _ => (a - b) * (a - b)
                 <= INR (length l) * (a * a) - 2 * a * fold_right Rplus 0 l
                    + fold_right Rplus 0 (map (fun x => x * x) l)
     end.
Proof.
  induction l as [ | b l [IH _] ]; [ simpl; split; [ lra | exact I ] | ].
  cbn [map fold_right]. rewrite length_cons, S_INR.
  pose proof (Rle_0_sqr (a - b)) as Hsq. unfold Rsqr in Hsq. split; lra.
Qed.

Lemma spread_nonneg (l : list R) :
  0 <= INR (length l) * fold_right Rplus 0 (map (fun x => x * x) l)
       - fold_right Rplus 0 l * fold_right Rplus 0 l.
Proof.
  induction l as [ | a l IH ]; [ simpl; lra | ].
  destruct (square_sum_head a l) as [Hh _].
  cbn [map fold_right]. rewrite length_cons, S_INR. nra.
Qed.

Lemma spread_pos (a b : R) (l : list R) :
  a <> b ->
  0 < INR (length (a :: b :: l)) * fold_right Rplus 0 (map (fun x => x * x) (a :: b :: l))
      - fold_right Rplus 0 (a :: b :: l) * fold_right Rplus 0 (a :: b :: l).
Proof.
  intros Hab.
  destruct (square_sum_head a (b :: l)) as [_ Hh].
  pose proof (spread_nonneg (b :: l)) as Hn.
  assert (0 < (a - b) * (a - b)) by (apply Rsqr_pos_lt; lra).
  set (m := b :: l) in *.
  cbn [map fold_right]. rewrite length_cons, S_INR. nra.
Qed.

Lemma combine_diag_products (x : list R) :
  map (fun p => fst p * snd p) (combine x x) = map (fun a => a * a) x.
Proof. induction x as [ | a x IH ]; [ reflexivity | ]. simpl. rewrite IH. reflexivity. Qed.

(** The variance of a list whose first two items differ is positive. *)
Lemma np_cov_diag_pos (a b : R) (l : list R) :
  a <> b -> 0 < np_cov (a :: b :: l) (a :: b :: l).
Proof.
  intros Hab. rewrite np_cov_sums by (simpl; lia || reflexivity).
  rewrite combine_diag_products.
  pose proof (spread_pos a b l Hab) as H.
  assert (0 < INR (length (a :: b :: l))) by (apply lt_0_INR; simpl; lia).
  apply Rdiv_lt_0_compat; [ exact H | nra ].
Qed.

End PowerLawFacts.

(** *** Concentration ratios *)

Module ConcentrationFacts.
Import Analysis SortFacts GiniFacts Concentration.
Local Open Scope Z_scope.

Lemma sorted_desc_Permutation (data : list Z) : sorted_desc data ≡ₚ data.
Proof. unfold sorted_desc. rewrite <- Permutation_rev. apply np_sort_Permutation. Qed.

Lemma sorted_desc_descending (data : list Z) : StronglySorted (flip Z.le) (sorted_desc data).
Proof. apply StronglySorted_rev_flip, np_sort_StronglySorted. Qed.

(** Values that are all at least as large as those of a second list
    weigh at least as much per item. *)
Lemma exact_sum_dominates (top rest : list Z) :
  (forall a b, a ∈ top -> b ∈ rest -> b <= a) ->
  Z.of_nat (length top) * exact_sum rest <= Z.of_nat (length rest) * exact_sum top.
Proof.
  intros Hdom. induction rest as [ | b rest IH ]; [ simpl; lia | ].
  assert (Z.of_nat (length top) * b <= exact_sum top) as Hb.
  { apply exact_sum_ge, Forall_forall. intros a Ha. apply Hdom; [ exact Ha | left ]. }
  assert (Z.of_nat (length top) * exact_sum rest <= Z.of_nat (length rest) * exact_sum top) as Hrest.
  { apply IH. intros a c Ha Hc. apply Hdom; [ exact Ha | right; exact Hc ]. }
  change (exact_sum (b :: rest)) with (b + exact_sum rest).
  change (length (b :: rest)) with (S (length rest)). lia.
Qed.

(** The first [k] of a descending list of non-negative values: their sum
    is at most the total, and at least the share k / n of it. *)
Lemma top_sum_bounds (l : list Z) (k : nat) :
  StronglySorted (flip Z.le) l -> Forall (Z.le 0) l ->
  0 <= exact_sum (firstn k l) <= exact_sum l
  /\ Z.of_nat (Nat.min k (length l)) * exact_sum l
     <= Z.of_nat (length l) * exact_sum (firstn k l).
Proof.
  intros Hsorted Hnonneg.
  pose proof (firstn_skipn k l) as Hsplit.
  assert (0 <= exact_sum (skipn k l)) as Hrest.
  { apply exact_sum_nonneg. rewrite <- Hsplit in Hnonneg. apply Forall_app in Hnonneg. tauto. }
  assert (0 <= exact_sum (firstn k l)) as Htop.
  { apply exact_sum_nonneg. rewrite <- Hsplit in Hnonneg. apply Forall_app in Hnonneg. tauto. }
  assert (exact_sum l = exact_sum (firstn k l) + exact_sum (skipn k l)) as Hsum.
  { rewrite <- Hsplit at 1. apply exact_sum_app. }
  assert (length l = (length (firstn k l) + length (skipn k l))%nat) as Hlen.
  { rewrite <- Hsplit at 1. apply length_app. }
  split; [ lia | ].
  rewrite <- length_firstn.
  assert (Z.of_nat (length (firstn k l)) * exact_sum (skipn k l)
          <= Z.of_nat (length (skipn k l)) * exact_sum (firstn k l)) as Hdom.
  { apply exact_sum_dominates. intros a b Ha Hb.
    rewrite <- Hsplit in Hsorted.
    exact (StronglySorted_app_1_elem_of (flip Z.le) _ _ a b Hsorted Ha Hb). }
  rewrite Hsum. rewrite Hlen, Nat2Z.inj_add. lia.
Qed.

(** Where the total of a non-negative sample fits int64, the two sums of
    the code are the integer sums. *)
Lemma sums_exact (data : list Z) (k : nat) :
  Forall (Z.le 0) data -> exact_sum data < 2 ^ 63 ->
  top_sum k data = largest_sum k data /\ total_sum data = exact_sum data.
Proof.
  intros Hnonneg Hbound.
  assert (Forall (Z.le 0) (sorted_desc data)) as Hnonneg'.
  { rewrite (sorted_desc_Permutation data). exact Hnonneg. }
  assert (exact_sum (sorted_desc data) = exact_sum data) as Htotal
    by apply exact_sum_Permutation, sorted_desc_Permutation.
  destruct (top_sum_bounds (sorted_desc data) k (sorted_desc_descending data) Hnonneg')
    as [Hupper _].
  unfold top_sum, total_sum, largest_sum. split.
  - apply np_sum_exact; [ | lia ].
    rewrite <- (firstn_skipn k (sorted_desc data)) in Hnonneg'.
    apply Forall_app in Hnonneg'. tauto.
  - rewrite <- Htotal. apply np_sum_exact; [ exact Hnonneg' | lia ].
Qed.

(** the concentration ratios of an int64 sample of non-negative values
    that holds a positive one and whose total is below 2^63.  No int64 sum
    wraps: every ratio of calculate_power_law_metrics and of
    check_power_law.py is the float64 quotient of the integer sum of the k
    largest values by the positive integer total, k being the ratio's own
    cut (for check_power_law.py: the top 20 % and pct in [1, 5, 10]);
    that sum lies between 0 and the total and is at least the share
    min(k, n) / n of the total; for the three top-percent ratios of
    calculate_power_law_metrics, whose cut is at least 1, it is at least
    total / n. *)
Theorem concentration_ratios_bounded (data : list Z) (x : Z) :
  Forall (Z.le 0) data -> x ∈ data -> 0 < x -> exact_sum data < 2 ^ 63 ->
  let n := length data in
  let total := exact_sum data in
  let ratio k := quotient (largest_sum k data) total in
  0 < total
  /\ (forall k, top_sum k data = largest_sum k data) /\ total_sum data = total
  /\ (forall k, 0 <= largest_sum k data <= total
                /\ Z.of_nat (Nat.min k n) * total <= Z.of_nat n * largest_sum k data)
  /\ (forall k, total <= Z.of_nat n * largest_sum (Nat.max 1 k) data)
  /\ concentration_metrics data
     = {| pareto_20 := ratio (fraction_of n literal_0_2);
          top_1_pct := ratio (Nat.max 1 (fraction_of n literal_0_01));
          top_5_pct := ratio (Nat.max 1 (fraction_of n literal_0_05));
          top_10_pct := ratio (Nat.max 1 (fraction_of n literal_0_10)) |}
  /\ top_20_ratio data = ratio (fraction_of n literal_0_2)
  /\ Forall (fun pct => top_pct_ratio pct data = ratio (percent_of n pct)) [1; 5; 10]%nat.
Proof.
  intros Hnonneg Hx Hpos Hbound n total ratio.
  assert (Forall (Z.le 0) (sorted_desc data)) as Hnonneg'.
  { rewrite (sorted_desc_Permutation data). exact Hnonneg. }
  assert (exact_sum (sorted_desc data) = total) as Htotal
    by apply exact_sum_Permutation, sorted_desc_Permutation.
  assert (length (sorted_desc data) = n) as Hlen
    by apply Permutation_length, sorted_desc_Permutation.
  assert (0 < n)%nat as Hn by (unfold n; destruct data; [ inversion Hx | simpl; lia ]).
  assert (0 < total) as Htotal_pos by exact (exact_sum_pos data x Hnonneg Hx Hpos).
  assert (forall k, 0 <= largest_sum k data <= total
                    /\ Z.of_nat (Nat.min k n) * total <= Z.of_nat n * largest_sum k data)
    as Hbounds.
  { intros k.
    pose proof (top_sum_bounds (sorted_desc data) k (sorted_desc_descending data) Hnonneg')
      as Hk.
    rewrite Htotal, Hlen in Hk. exact Hk. }
  assert (forall k, top_share k data = ratio k) as Hshare.
  { intros k. destruct (sums_exact data k Hnonneg Hbound) as [Htop Hall].
    unfold top_share, ratio, quotient. rewrite Htop, Hall. reflexivity. }
  split; [ exact Htotal_pos | ].
  split; [ intros k; apply (sums_exact data k Hnonneg Hbound) | ].
  split; [ apply (sums_exact data 0 Hnonneg Hbound) | ].
  split; [ exact Hbounds | ].
  split.
  { intros k. destruct (Hbounds (Nat.max 1 k)) as [_ Hk].
    assert (1 <= Nat.min (Nat.max 1 k) n)%nat by lia. nia. }
  split.
  { unfold concentration_metrics. fold n. rewrite !Hshare. reflexivity. }
  split.
  { unfold top_20_ratio. fold n. apply Hshare. }
  repeat constructor; unfold top_pct_ratio; fold n; apply Hshare.
Qed.

Lemma concentration_ratios_bounded_witness :
  let data := [5; 3; 9; 1; 1; 1] in
  let n := length data in
  let total := exact_sum data in
  let ratio k := quotient (largest_sum k data) total in
  0 < total
  /\ (forall k, top_sum k data = largest_sum k data) /\ total_sum data = total
  /\ (forall k, 0 <= largest_sum k data <= total
                /\ Z.of_nat (Nat.min k n) * total <= Z.of_nat n * largest_sum k data)
  /\ (forall k, total <= Z.of_nat n * largest_sum (Nat.max 1 k) data)
  /\ concentration_metrics data
     = {| pareto_20 := ratio (fraction_of n literal_0_2);
          top_1_pct := ratio (Nat.max 1 (fraction_of n literal_0_01));
          top_5_pct := ratio (Nat.max 1 (fraction_of n literal_0_05));
          top_10_pct := ratio (Nat.max 1 (fraction_of n literal_0_10)) |}
  /\ top_20_ratio data = ratio (fraction_of n literal_0_2)
  /\ Forall (fun pct => top_pct_ratio pct data = ratio (percent_of n pct)) [1; 5; 10]%nat.
Proof.
  apply (concentration_ratios_bounded [5; 3; 9; 1; 1; 1] 5).
  - repeat constructor; lia.
  - left.
  - lia.
  - vm_compute. reflexivity.
Defined.

(** int(n * 0.2) is 0 below 5, and int(n * 0.01) and int(n * 1 / 100)
    are 0 below 100. *)
Lemma small_cuts (n : nat) :
  ((n < 5)%nat -> fraction_of n literal_0_2 = 0%nat)
  /\ ((n < 100)%nat -> fraction_of n literal_0_01 = 0%nat /\ percent_of n 1 = 0%nat).
Proof.
  assert (forallb (fun n => (fraction_of n literal_0_2 =? 0)%nat) (seq 0 5) = true) as H5
    by (vm_compute; reflexivity).
  assert (forallb (fun n => (fraction_of n literal_0_01 =? 0)%nat && (percent_of n 1 =? 0)%nat)
            (seq 0 100) = true) as H100
    by (vm_compute; reflexivity).
  rewrite forallb_forall in H5, H100. split; intros Hn.
  - apply Nat.eqb_eq, H5, in_seq. lia.
  - assert (In n (seq 0 100)) as Hin by (apply in_seq; lia).
    apply H100, andb_true_iff in Hin as [H1 H2].
    split; apply Nat.eqb_eq; assumption.
Qed.

Lemma sorted_desc_head (data : list Z) (x : Z) :
  x ∈ data ->
  exists m rest, sorted_desc data = m :: rest /\ m ∈ data /\ forall y, y ∈ data -> y <= m.
Proof.
  intros Hx. pose proof (sorted_desc_Permutation data) as Hperm.
  pose proof (sorted_desc_descending data) as Hsorted.
  destruct (sorted_desc data) as [ | m rest ].
  - apply Permutation_nil_l in Hperm. subst. inversion Hx.
  - exists m, rest. split; [ reflexivity | ]. split.
    + rewrite <- Hperm. left.
    + intros y Hy. rewrite <- Hperm in Hy. apply StronglySorted_cons in Hsorted as [Hm _].
      apply elem_of_cons in Hy as [ -> | Hy ]; [ lia | ].
      rewrite Forall_forall in Hm. apply (Hm y Hy).
Qed.

(** small int64 samples (non-negative values with a positive one,
    total below 2^63).  With fewer than 5 values the cut int(n * 0.2) is
    0: pareto_20 and the top-20 % ratio of check_power_law.py divide the
    integer 0 by the total, whatever the values.  With fewer than 100
    values the top-1 % ratio of check_power_law.py divides 0 by the total
    as well, while top_1_pct of calculate_power_law_metrics, whose cut is
    max(1, int(n * 0.01)), divides the largest value by the total. *)
Theorem small_sample_ratios (data : list Z) (x : Z) :
  Forall (Z.le 0) data -> x ∈ data -> 0 < x -> exact_sum data < 2 ^ 63 ->
  let total := exact_sum data in
  ((length data < 5)%nat ->
     pareto_20 (concentration_metrics data) = quotient 0 total
     /\ top_20_ratio data = quotient 0 total)
  /\ ((length data < 100)%nat ->
       top_pct_ratio 1 data = quotient 0 total
       /\ exists m, m ∈ data /\ (forall y, y ∈ data -> y <= m)
            /\ top_1_pct (concentration_metrics data) = quotient m total).
Proof.
  intros Hnonneg Hx Hpos Hbound total.
  assert (forall k, top_share k data = quotient (largest_sum k data) total) as Hshare.
  { intros k. destruct (sums_exact data k Hnonneg Hbound) as [Htop Hall].
    unfold top_share, quotient. rewrite Htop, Hall. reflexivity. }
  split; intros Hn.
  - destruct (small_cuts (length data)) as [Hcut _].
    unfold concentration_metrics, top_20_ratio, pareto_20.
    rewrite (Hcut Hn), Hshare. split; reflexivity.
  - destruct (small_cuts (length data)) as [_ Hcut]. destruct (Hcut Hn) as [Hcut1 Hcut2].
    split.
    + unfold top_pct_ratio. rewrite Hcut2, Hshare. reflexivity.
    + destruct (sorted_desc_head data x Hx) as (m & rest & Hsorted & Hm & Hmax).
      exists m. split; [ exact Hm | ]. split; [ exact Hmax | ].
      unfold concentration_metrics, top_1_pct. rewrite Hcut1. simpl Nat.max.
      rewrite Hshare. unfold largest_sum. rewrite Hsorted. simpl firstn.
      unfold exact_sum at 1. simpl. rewrite Z.add_0_r. reflexivity.
Qed.

Lemma small_sample_ratios_witness :
  let data := [5; 3; 9] in
  let total := exact_sum data in
  (((length data < 5)%nat ->
      pareto_20 (concentration_metrics data) = quotient 0 total
      /\ top_20_ratio data = quotient 0 total)
   /\ ((length data < 100)%nat ->
        top_pct_ratio 1 data = quotient 0 total
        /\ exists m, m ∈ data /\ (forall y, y ∈ data -> y <= m)
             /\ top_1_pct (concentration_metrics data) = quotient m total))
  /\ quotient 0 total = PrimFloat.zero
  /\ top_1_pct (concentration_metrics data) = quotient 9 17.
Proof.
  split; [ | split; vm_compute; reflexivity ].
  apply (small_sample_ratios [5; 3; 9] 5).
  - repeat constructor; lia.
  - left.
  - lia.
  - vm_compute. reflexivity.
Defined.

End ConcentrationFacts.

(** *** The evaluation *)

Module EvaluationFacts.
Import PrimFloat Evaluation.
Local Open Scope float_scope.

(** Case analysis on the tests of the five criteria, in the order the
    code makes them. *)
Ltac criteria m :=
  destruct (literal_0_95 <? r_squared m);
  [ | destruct (literal_0_90 <? r_squared m);
      [ | destruct (literal_0_80 <? r_squared m) ] ];
  (destruct ((1 <? alpha m) && (alpha m <? 3));
   [ | destruct ((0.5 <? alpha m) && (alpha m <=? 1));
       [ | destruct ((3 <=? alpha m) && (alpha m <? 4)) ] ]);
  (destruct (literal_0_80 <? gini m);
   [ | destruct (literal_0_6 <? gini m) ]);
  (destruct (literal_0_80 <? pareto_20 m);
   [ | destruct (literal_0_7 <? pareto_20 m) ]);
  (destruct (0.5 <? top_1_pct m);
   [ | destruct (literal_0_3 <? top_1_pct m) ]).

Ltac unfold_score :=
  unfold evaluate_power_law, final_score, after_top_1, after_pareto, after_gini, after_alpha,
    after_r_squared, decimal_score; simpl snd.

(** The conclusion [evaluate_power_law] prints is the one exact
    decimal arithmetic gives: adding the points 1, 0.8, 0.7, 0.5 and 0.3
    in float64 never moves the total across 4.5, 3.5 or 2.5. *)
Theorem conclusion_is_the_decimal_one (m : metrics) :
  snd (evaluate_power_law m) = decimal_conclusion (decimal_score m).
Proof. unfold_score. criteria m; vm_compute; reflexivity. Qed.

(** What the conclusions of [evaluate_power_law] rest on.  The
    strongest one is printed only when R-squared passes one of its three
    tests, alpha lies in one of the three scored ranges, Gini passes one
    of its two tests and so does the top-1 % share.  Without any point
    from R-squared and alpha (both nan, say) the conclusion is at most
    the weak tendency; and the three concentration criteria at their best
    give the weak tendency whatever R-squared and alpha are. *)
Theorem conclusions_rest_on (m : metrics) :
  (snd (evaluate_power_law m) = VeryStrongPowerLaw ->
     ((literal_0_95 <? r_squared m) || (literal_0_90 <? r_squared m)
        || (literal_0_80 <? r_squared m)) = true
     /\ (((1 <? alpha m) && (alpha m <? 3)) || ((0.5 <? alpha m) && (alpha m <=? 1))
           || ((3 <=? alpha m) && (alpha m <? 4))) = true
     /\ ((literal_0_80 <? gini m) || (literal_0_6 <? gini m)) = true
     /\ ((0.5 <? top_1_pct m) || (literal_0_3 <? top_1_pct m)) = true)
  /\ (((literal_0_95 <? r_squared m) || (literal_0_90 <? r_squared m)
         || (literal_0_80 <? r_squared m)) = false ->
      (((1 <? alpha m) && (alpha m <? 3)) || ((0.5 <? alpha m) && (alpha m <=? 1))
         || ((3 <=? alpha m) && (alpha m <? 4))) = false ->
      snd (evaluate_power_law m) = WeakTendency \/ snd (evaluate_power_law m) = NoPowerLaw)
  /\ ((literal_0_80 <? gini m) = true -> (literal_0_80 <? pareto_20 m) = true ->
      (0.5 <? top_1_pct m) = true ->
      snd (evaluate_power_law m) <> NoPowerLaw).
Proof.
  unfold_score. split; [ | split ].
  - criteria m; vm_compute; intros H; try discriminate H; auto.
  - criteria m; vm_compute; intros H1 H2; try discriminate H1; try discriminate H2; auto.
  - criteria m; vm_compute; intros H1 H2 H3 H;
      discriminate H1 || discriminate H2 || discriminate H3 || discriminate H.
Qed.

(** On [best_metrics] the strongest conclusion is printed and the four
    conditions hold; on [degenerate_metrics] the conclusion is the weak
    tendency. *)
Lemma conclusions_rest_on_witness :
  (snd (evaluate_power_law best_metrics) = VeryStrongPowerLaw
   /\ ((literal_0_95 <? r_squared best_metrics) || (literal_0_90 <? r_squared best_metrics)
         || (literal_0_80 <? r_squared best_metrics)) = true)
  /\ snd (evaluate_power_law degenerate_metrics) = WeakTendency.
Proof.
  split.
  - assert (snd (evaluate_power_law best_metrics) = VeryStrongPowerLaw) as Hbest
      by (vm_compute; reflexivity).
    split; [ exact Hbest | ].
    exact (proj1 (proj1 (conclusions_rest_on best_metrics) Hbest)).
  - destruct (conclusions_rest_on degenerate_metrics) as (_ & Hcap & Hfloor).
    destruct Hcap as [ H | H ]; [ reflexivity | reflexivity | exact H | ].
    exfalso. apply Hfloor; [ reflexivity | reflexivity | reflexivity | exact H ].
Defined.

End EvaluationFacts.
